(** * myfind: a shallow embedding of the final draft of [myfind.c]

    The development follows the latest version of the program (the one with
    [ParseCommandLineArgs], [SearchFile], [SearchDirectory], [CombinePath],
    [ShouldPrintFileInformation] and [PrintFileInformation]) and, for
    comparison, the directory loop of the first draft ([do_file]/[do_dir]).

    Conventions.
    - C strings are [string]; lengths are assumed to fit the [int] that
      [CombinePath] stores them in.
    - [int] and [uid_t] values are [Z]; the one mixed comparison of the
      program has its conversion written out ([to_uid_t]).
    - The operating system is a tree of observations ([fsnode]): what
      [lstat], [opendir], [readdir] and [closedir] answer for a node and for
      the names found below it.
    - Output is a trace of [event]s, in program order. *)

From Stdlib Require Import String Ascii ZArith List Bool Lia.
Import ListNotations.

Local Open Scope string_scope.
Local Open Scope Z_scope.

(** ** File types and command line options *)

Module FileTypes.
(** [enum FileTypes]: a set of flags. *)
Definition None : Z := 0.
Definition BlockSpecialFile : Z := Z.shiftl 1 0.
Definition CharacterSpecialFile : Z := Z.shiftl 1 1.
Definition Directory : Z := Z.shiftl 1 2.
Definition NamedPipe : Z := Z.shiftl 1 3.
Definition RegularFile : Z := Z.shiftl 1 4.
Definition SymbolicLink : Z := Z.shiftl 1 5.
Definition Socket : Z := Z.shiftl 1 6.
End FileTypes.

(** [struct Args].  Pointers that may be NULL are options. *)
Record Args : Type := mkArgs {
  searchPath : option string;
  printInExtendedFormat : bool;
  filterByFileType : bool;
  fileTypes : Z;
  filterByUserID : bool;
  userID : Z;
  filterForNoUser : bool;
  filterForNamePattern : bool;
  namePattern : option string;
  filterForPathPattern : bool;
  pathPattern : option string
}.

(** [calloc(1, sizeof(struct Args))]: every member zero. *)
Definition calloc_Args : Args :=
  {| searchPath := None; printInExtendedFormat := false;
     filterByFileType := false; fileTypes := FileTypes.None;
     filterByUserID := false; userID := 0;
     filterForNoUser := false;
     filterForNamePattern := false; namePattern := None;
     filterForPathPattern := false; pathPattern := None |}.

Definition set_searchPath (p : string) (a : Args) : Args :=
  {| searchPath := Some p; printInExtendedFormat := printInExtendedFormat a;
     filterByFileType := filterByFileType a; fileTypes := fileTypes a;
     filterByUserID := filterByUserID a; userID := userID a;
     filterForNoUser := filterForNoUser a;
     filterForNamePattern := filterForNamePattern a; namePattern := namePattern a;
     filterForPathPattern := filterForPathPattern a; pathPattern := pathPattern a |}.

Definition set_printInExtendedFormat (a : Args) : Args :=
  {| searchPath := searchPath a; printInExtendedFormat := true;
     filterByFileType := filterByFileType a; fileTypes := fileTypes a;
     filterByUserID := filterByUserID a; userID := userID a;
     filterForNoUser := filterForNoUser a;
     filterForNamePattern := filterForNamePattern a; namePattern := namePattern a;
     filterForPathPattern := filterForPathPattern a; pathPattern := pathPattern a |}.

Definition set_fileTypes (t : Z) (a : Args) : Args :=
  {| searchPath := searchPath a; printInExtendedFormat := printInExtendedFormat a;
     filterByFileType := true; fileTypes := t;
     filterByUserID := filterByUserID a; userID := userID a;
     filterForNoUser := filterForNoUser a;
     filterForNamePattern := filterForNamePattern a; namePattern := namePattern a;
     filterForPathPattern := filterForPathPattern a; pathPattern := pathPattern a |}.

Definition set_userID (u : Z) (a : Args) : Args :=
  {| searchPath := searchPath a; printInExtendedFormat := printInExtendedFormat a;
     filterByFileType := filterByFileType a; fileTypes := fileTypes a;
     filterByUserID := true; userID := u;
     filterForNoUser := filterForNoUser a;
     filterForNamePattern := filterForNamePattern a; namePattern := namePattern a;
     filterForPathPattern := filterForPathPattern a; pathPattern := pathPattern a |}.

Definition set_filterForNoUser (a : Args) : Args :=
  {| searchPath := searchPath a; printInExtendedFormat := printInExtendedFormat a;
     filterByFileType := filterByFileType a; fileTypes := fileTypes a;
     filterByUserID := filterByUserID a; userID := userID a;
     filterForNoUser := true;
     filterForNamePattern := filterForNamePattern a; namePattern := namePattern a;
     filterForPathPattern := filterForPathPattern a; pathPattern := pathPattern a |}.

Definition set_namePattern (p : string) (a : Args) : Args :=
  {| searchPath := searchPath a; printInExtendedFormat := printInExtendedFormat a;
     filterByFileType := filterByFileType a; fileTypes := fileTypes a;
     filterByUserID := filterByUserID a; userID := userID a;
     filterForNoUser := filterForNoUser a;
     filterForNamePattern := true; namePattern := Some p;
     filterForPathPattern := filterForPathPattern a; pathPattern := pathPattern a |}.

Definition set_pathPattern (p : string) (a : Args) : Args :=
  {| searchPath := searchPath a; printInExtendedFormat := printInExtendedFormat a;
     filterByFileType := filterByFileType a; fileTypes := fileTypes a;
     filterByUserID := filterByUserID a; userID := userID a;
     filterForNoUser := filterForNoUser a;
     filterForNamePattern := filterForNamePattern a; namePattern := namePattern a;
     filterForPathPattern := true; pathPattern := Some p |}.

(** ** [ParseFileTypes] *)

(** One round of the [switch]: the flag to OR in, or nothing for the
    [default] label. *)
Definition file_type_flag (c : ascii) : option Z :=
  if Ascii.eqb c "b" then Some FileTypes.BlockSpecialFile
  else if Ascii.eqb c "c" then Some FileTypes.CharacterSpecialFile
  else if Ascii.eqb c "d" then Some FileTypes.Directory
  else if Ascii.eqb c "p" then Some FileTypes.NamedPipe
  else if Ascii.eqb c "f" then Some FileTypes.RegularFile
  else if Ascii.eqb c "l" then Some FileTypes.SymbolicLink
  else if Ascii.eqb c "s" then Some FileTypes.Socket
  else None.

(** The [for] loop, with the value of [*fileTypes] so far. *)
Fixpoint ParseFileTypes_loop (fileTypeChars : string) (acc : Z) : option Z :=
  match fileTypeChars with
  | EmptyString => Some acc
  | String c rest =>
      match file_type_flag c with
      | Some flag => ParseFileTypes_loop rest (Z.lor acc flag)
      | None => None
      end
  end.

(** [None] is the [false] return; [Some t] is [true] with [*fileTypes = t]. *)
Definition ParseFileTypes (fileTypeChars : string) : option Z :=
  ParseFileTypes_loop fileTypeChars FileTypes.None.

(** ** [ParseCommandLineArgs] *)

(** The diagnostics written to [stderr] before [return false]. *)
Inductive ArgError : Type :=
| MissingOperand (action : string)
| InvalidFileTypes (chars : string)
| UnknownUser (name : string)
| UnknownArgument (i : nat) (arg : string).

Section CommandLine.

(** [ConvertToInteger] and [QueryUserID] have no body in the source
    (a TODO each); the parser is stated for any pair of them.  [None] is
    the [false] return, [Some n] is [true] with [*i = n]. *)
Variable ConvertToInteger : string -> option Z.
Variable QueryUserID : string -> option Z.

(** The [while] loop: [rest] is [argv] from index [i] to the NULL. *)
Fixpoint ParseCommandLineArgs_loop (i : nat) (rest : list string) (args : Args)
  {struct rest} : ArgError + Args :=
  match rest with
  | [] => inr args
  | arg :: rest1 =>
      if String.eqb arg "-print" then
        ParseCommandLineArgs_loop (S i) rest1 args
      else if String.eqb arg "-ls" then
        ParseCommandLineArgs_loop (S i) rest1 (set_printInExtendedFormat args)
      else if String.eqb arg "-type" then
        match rest1 with
        | [] => inl (MissingOperand "-type")
        | fileTypes :: rest2 =>
            match ParseFileTypes fileTypes with
            | None => inl (InvalidFileTypes fileTypes)
            | Some t => ParseCommandLineArgs_loop (S (S i)) rest2 (set_fileTypes t args)
            end
        end
      else if String.eqb arg "-user" then
        match rest1 with
        | [] => inl (MissingOperand "-user")
        | userNameOrID :: rest2 =>
            match ConvertToInteger userNameOrID with
            | Some u => ParseCommandLineArgs_loop (S (S i)) rest2 (set_userID u args)
            | None =>
                match QueryUserID userNameOrID with
                | Some u => ParseCommandLineArgs_loop (S (S i)) rest2 (set_userID u args)
                | None => inl (UnknownUser userNameOrID)
                end
            end
        end
      else if String.eqb arg "-nouser" then
        ParseCommandLineArgs_loop (S i) rest1 (set_filterForNoUser args)
      else if String.eqb arg "-name" then
        match rest1 with
        | [] => inl (MissingOperand "-name")
        | namePattern :: rest2 =>
            ParseCommandLineArgs_loop (S (S i)) rest2 (set_namePattern namePattern args)
        end
      else if String.eqb arg "-path" then
        match rest1 with
        | [] => inl (MissingOperand "-path")
        | pathPattern :: rest2 =>
            ParseCommandLineArgs_loop (S (S i)) rest2 (set_pathPattern pathPattern args)
        end
      else if Nat.eqb i 1 then
        ParseCommandLineArgs_loop (S i) rest1 (set_searchPath arg args)
      else
        inl (UnknownArgument i arg)
  end.

(** [argv[0]] is the executable path; the loop starts at index 1. *)
Definition ParseCommandLineArgs (argv : list string) (args : Args) : ArgError + Args :=
  ParseCommandLineArgs_loop 1 (tl argv) args.

End CommandLine.

(** The seven action words the parser compares against. *)
Definition is_action (arg : string) : bool :=
  String.eqb arg "-print" || String.eqb arg "-ls" || String.eqb arg "-type" ||
  String.eqb arg "-user" || String.eqb arg "-nouser" || String.eqb arg "-name" ||
  String.eqb arg "-path".

(** ** File information *)

(** The members of [struct stat] the program reads. *)
Record stat : Type := mkStat { st_mode : Z; st_uid : Z }.

(** The file type macros of [<sys/stat.h>] (not part of the repository),
    with the Linux values. *)
Definition S_IFMT : Z := 61440.   (* 0170000 *)
Definition S_IFSOCK : Z := 49152. (* 0140000 *)
Definition S_IFLNK : Z := 40960.  (* 0120000 *)
Definition S_IFREG : Z := 32768.  (* 0100000 *)
Definition S_IFBLK : Z := 24576.  (* 0060000 *)
Definition S_IFDIR : Z := 16384.  (* 0040000 *)
Definition S_IFCHR : Z := 8192.   (* 0020000 *)
Definition S_IFIFO : Z := 4096.   (* 0010000 *)

Definition S_ISBLK (m : Z) : bool := Z.land m S_IFMT =? S_IFBLK.
Definition S_ISCHR (m : Z) : bool := Z.land m S_IFMT =? S_IFCHR.
Definition S_ISDIR (m : Z) : bool := Z.land m S_IFMT =? S_IFDIR.
Definition S_ISFIFO (m : Z) : bool := Z.land m S_IFMT =? S_IFIFO.
Definition S_ISREG (m : Z) : bool := Z.land m S_IFMT =? S_IFREG.
Definition S_ISLNK (m : Z) : bool := Z.land m S_IFMT =? S_IFLNK.
Definition S_ISSOCK (m : Z) : bool := Z.land m S_IFMT =? S_IFSOCK.

(** A C integer used as a condition. *)
Definition truthy (x : Z) : bool := negb (x =? 0).

(** [st_uid == userID] compares a [uid_t] (unsigned, 32 bits) with an [int]:
    the [int] is converted to unsigned first. *)
Definition to_uid_t (x : Z) : Z := x mod 2 ^ 32.

(** ** [ShouldPrintFileInformation] *)

(** The expression returned under [filterByFileType]. *)
Definition file_type_selected (fileInformation : stat) (args : Args) : bool :=
  (S_ISBLK (st_mode fileInformation) && truthy (Z.land (fileTypes args) FileTypes.BlockSpecialFile)) ||
  (S_ISCHR (st_mode fileInformation) && truthy (Z.land (fileTypes args) FileTypes.CharacterSpecialFile)) ||
  (S_ISDIR (st_mode fileInformation) && truthy (Z.land (fileTypes args) FileTypes.Directory)) ||
  (S_ISFIFO (st_mode fileInformation) && truthy (Z.land (fileTypes args) FileTypes.NamedPipe)) ||
  (S_ISREG (st_mode fileInformation) && truthy (Z.land (fileTypes args) FileTypes.RegularFile)) ||
  (S_ISLNK (st_mode fileInformation) && truthy (Z.land (fileTypes args) FileTypes.SymbolicLink)) ||
  (S_ISSOCK (st_mode fileInformation) && truthy (Z.land (fileTypes args) FileTypes.Socket)).

(** The expression returned under [filterByUserID]. *)
Definition user_id_selected (fileInformation : stat) (args : Args) : bool :=
  st_uid fileInformation =? to_uid_t (userID args).

(** The [if]/[else if] chain: the first flag that is set decides alone.  The
    branches for [-nouser], [-name] and [-path] are a TODO followed by
    [return false]. *)
Definition ShouldPrintFileInformation
  (filePath : string) (fileInformation : stat) (args : Args) : bool :=
  if filterByFileType args then file_type_selected fileInformation args
  else if filterByUserID args then user_id_selected fileInformation args
  else if filterForNoUser args then false
  else if filterForNamePattern args then false
  else if filterForPathPattern args then false
  else true.

(** ** [CombinePath] *)

Definition slash : ascii := "/"%char.

(** [s[n]], the terminating NUL past the end. *)
Definition char_at (s : string) (n : nat) : ascii :=
  match String.get n s with
  | Some c => c
  | None => zero
  end.

(** [strncat(dst, src, n)]: appends at most [n] characters of [src]. *)
Definition strncat (dst src : string) (n : nat) : string :=
  dst ++ String.substring 0 n src.

Definition CombinePath (path1 path2 : string) : string :=
  let path1Len := String.length path1 in
  let path2Len := String.length path2 in
  if Nat.eqb path1Len 0 && Nat.eqb path2Len 0 then ""
  else if Nat.eqb path1Len 0 then path2
  else if Nat.eqb path2Len 0 then path1
  else
    let combined := "" in
    let path1HasTrailingSlash :=
      Nat.ltb 0 path1Len && Ascii.eqb (char_at path1 (path1Len - 1)) slash in
    let path2HasLeadingSlash :=
      Nat.ltb 0 path2Len && Ascii.eqb (char_at path2 0) slash in
    if path1HasTrailingSlash && path2HasLeadingSlash then
      strncat combined path1 (path1Len - 1) ++ path2
    else if path1HasTrailingSlash || path2HasLeadingSlash then
      (combined ++ path1) ++ path2
    else
      ((combined ++ path1) ++ "/") ++ path2.


(** ** The file system seen by the walk *)

(** What the system calls answer for one path.  [info] is the result of
    [lstat] (an [errno] value, or the node's own [struct stat]: a link is
    not followed).  [dir] is what opening the path as a directory gives; it
    is kept apart from [info] because [opendir] resolves the path on its
    own (it follows a link, and it can succeed where [lstat] did not). *)
Inductive fsnode : Type :=
| FsNode (info : Z + stat) (dir : dirstream)
(** [opendir] fails with an [errno], or yields a stream: the entries that
    successive [readdir] calls deliver (pseudo-entries included), how the
    last [readdir] returns NULL ([rd]: [None] at the natural end, [Some e]
    with [errno = e]), and what [closedir] returns ([cl]: [Some e] is -1). *)
with dirstream : Type :=
| OpenFails (e : Z)
| Stream (ents : dirents) (rd : option Z) (cl : option Z)
(** An entry carries its [d_name] and the node a later [lstat] of the
    combined path finds under that name. *)
with dirents : Type :=
| dnil
| dcons (d_name : string) (child : fsnode) (rest : dirents).

Scheme fsnode_ind3 := Induction for fsnode Sort Prop
  with dirstream_ind3 := Induction for dirstream Sort Prop
  with dirents_ind3 := Induction for dirents Sort Prop.
Combined Scheme fs_mutind from fsnode_ind3, dirstream_ind3, dirents_ind3.

(** ** Traces *)

(** The four [fprintf(stderr, ...)] of the walk: the operation, the path and
    [errno]. *)
Inductive Diagnostic : Type :=
| ReadingInformationFailed (filePath : string) (e : Z)
| OpeningDirectoryFailed (directoryPath : string) (e : Z)
| ReadingDirectoryFailed (directoryPath : string) (e : Z)
| ClosingDirectoryFailed (directoryPath : string) (e : Z).

Inductive event : Type :=
| Lstat (filePath : string)
| Opendir (directoryPath : string) (opened : bool)
| Readdir (directoryPath : string)
| Closedir (directoryPath : string)
| Stdout (line : string)
| Stderr (d : Diagnostic)
| StderrArgument (err : ArgError)
| Usage.

Definition newline : string := String (ascii_of_nat 10) EmptyString.

(** ** [PrintFileInformation] *)

(** The extended format is a TODO in the source: that branch prints
    nothing. *)
Definition PrintFileInformation
  (filePath : string) (fileInformation : stat) (args : Args) : list event :=
  if printInExtendedFormat args then []
  else [Stdout (filePath ++ newline)].

(** ** The linked list of file names *)

(** A [struct FileNode] list; each name is kept with the node found under
    it (see [dirents]). *)
Definition FileList : Type := list (string * fsnode).

(** [AddListNode]: the new node goes after the last one. *)
Definition AddListNode (head : FileList) (fileName : string * fsnode) : FileList :=
  (head ++ [fileName])%list.

(** The test on [d_name] that skips the current and the parent directory. *)
Definition is_dot (d_name : string) : bool :=
  String.eqb d_name "." || String.eqb d_name "..".

(** ** [SearchDirectory]: the read loop *)

(** The [do]/[while] loop of [SearchDirectory]: the trace of the loop and
    the list it leaves in [head]. *)
Fixpoint read_directory (directoryPath : string) (ents : dirents) (rd : option Z)
  (head : FileList) : list event * FileList :=
  match ents with
  | dnil =>
      (Readdir directoryPath ::
         match rd with
         | Some e => [Stderr (ReadingDirectoryFailed directoryPath e)]
         | None => []
         end,
       head)
  | dcons d_name child rest =>
      let (tr, head') :=
        read_directory directoryPath rest rd
          (if is_dot d_name then head else AddListNode head (d_name, child)) in
      (Readdir directoryPath :: tr, head')
  end.

(** ** [SearchFile] and [SearchDirectory] *)

(** [SearchList] is the [while (node != NULL)] loop of [SearchDirectory].
    So that the recursion is structural it runs over the entries of the
    stream and skips the pseudo-entries itself; [SearchList_FileList] shows
    that this is the loop over the list [read_directory] built. *)
Fixpoint SearchFile (filePath : string) (n : fsnode) (args : Args) {struct n}
  : list event :=
  match n with
  | FsNode info dir =>
      Lstat filePath ::
      match info with
      | inl e => [Stderr (ReadingInformationFailed filePath e)]
      | inr fileInfo =>
          ((if ShouldPrintFileInformation filePath fileInfo args
            then PrintFileInformation filePath fileInfo args
            else []) ++
           (if S_ISDIR (st_mode fileInfo)
            then SearchDirectory filePath dir args
            else []))%list
      end
  end
with SearchDirectory (directoryPath : string) (dir : dirstream) (args : Args)
  {struct dir} : list event :=
  match dir with
  | OpenFails e =>
      [Opendir directoryPath false;
       Stderr (OpeningDirectoryFailed directoryPath e)]
  | Stream ents rd cl =>
      Opendir directoryPath true ::
      (fst (read_directory directoryPath ents rd []) ++
       Closedir directoryPath ::
       match cl with
       | Some e => [Stderr (ClosingDirectoryFailed directoryPath e)]
       | None => SearchList directoryPath ents args
       end)%list
  end
with SearchList (directoryPath : string) (ents : dirents) (args : Args)
  {struct ents} : list event :=
  match ents with
  | dnil => []
  | dcons d_name child rest =>
      if is_dot d_name then SearchList directoryPath rest args
      else
        (SearchFile (CombinePath directoryPath d_name) child args ++
         SearchList directoryPath rest args)%list
  end.

(** The loop over a [FileList], as the source writes it. *)
Definition SearchFileList (directoryPath : string) (head : FileList) (args : Args)
  : list event :=
  flat_map
    (fun node => SearchFile (CombinePath directoryPath (fst node)) (snd node) args)
    head.

(** ** [main] *)

Definition main (ConvertToInteger QueryUserID : string -> option Z)
  (argv : list string) (root : fsnode) : Z * list event :=
  match ParseCommandLineArgs ConvertToInteger QueryUserID argv calloc_Args with
  | inl err => (-1, [StderrArgument err; Usage])
  | inr args =>
      let searchPath :=
        match searchPath args with
        | None => "."
        | Some p => p
        end in
      (0, SearchFile searchPath root args)
  end.

(** ** The first draft: [do_file] and [do_dir] of [myfind/myfind.c] *)

(** In this draft the children are visited from inside the read loop, with
    the stream still open, and every visited path is printed. *)
Fixpoint do_file (file_name : string) (n : fsnode) {struct n} : list event :=
  match n with
  | FsNode info dir =>
      Lstat file_name ::
      match info with
      | inl e => [Stderr (ReadingInformationFailed file_name e)]
      | inr fileInfo =>
          Stdout (file_name ++ newline) ::
          (if S_ISDIR (st_mode fileInfo) then do_dir file_name dir else [])
      end
  end
with do_dir (dir_name : string) (dir : dirstream) {struct dir} : list event :=
  match dir with
  | OpenFails e =>
      [Opendir dir_name false; Stderr (OpeningDirectoryFailed dir_name e)]
  | Stream ents rd cl =>
      Opendir dir_name true ::
      (do_dir_loop dir_name ents rd ++
       Closedir dir_name ::
       match cl with
       | Some e => [Stderr (ClosingDirectoryFailed dir_name e)]
       | None => []
       end)%list
  end
with do_dir_loop (dir_name : string) (ents : dirents) (rd : option Z)
  {struct ents} : list event :=
  match ents with
  | dnil =>
      Readdir dir_name ::
      match rd with
      | Some e => [Stderr (ReadingDirectoryFailed dir_name e)]
      | None => []
      end
  | dcons d_name child rest =>
      Readdir dir_name ::
      ((if is_dot d_name then []
        else do_file (CombinePath dir_name d_name) child) ++
       do_dir_loop dir_name rest rd)%list
  end.

(** ** Directory handles *)

(** A successful [opendir] takes a handle; the call of [closedir] gives it
    back (after the call the program holds no stream, whatever the call
    returned). *)
Definition handle_delta (e : event) : Z :=
  match e with
  | Opendir _ true => 1
  | Closedir _ => -1
  | _ => 0
  end.

(** Handles held after a run of events. *)
Fixpoint open_handles (tr : list event) : Z :=
  match tr with
  | [] => 0
  | e :: tr' => handle_delta e + open_handles tr'
  end.

(** ** Notions used to state the properties *)

(** The two tests [CombinePath] makes at the junction. *)
Definition has_trailing_slash (path : string) : bool :=
  Nat.ltb 0 (String.length path) &&
  Ascii.eqb (char_at path (String.length path - 1)) slash.

Definition has_leading_slash (path : string) : bool :=
  Nat.ltb 0 (String.length path) && Ascii.eqb (char_at path 0) slash.

(** No filter flag of the configuration is set. *)
Definition no_filter_active (args : Args) : Prop :=
  filterByFileType args = false /\
  filterByUserID args = false /\
  filterForNoUser args = false /\
  filterForNamePattern args = false /\
  filterForPathPattern args = false.

(** Modelled from the spec: the program has no pattern matcher (the branch
    for [-name] is a TODO), so the shell-glob match of the specification is
    written from its words: [*] matches any run of characters, the empty one
    included, [?] matches exactly one character, any other character
    matches itself, and the whole string has to be matched. *)
Fixpoint glob_match (pattern : string) : string -> bool :=
  match pattern with
  | EmptyString => fun s => String.eqb s ""
  | String p pattern' =>
      if Ascii.eqb p "*" then
        fix star (s : string) : bool :=
          glob_match pattern' s ||
          match s with
          | EmptyString => false
          | String _ s' => star s'
          end
      else if Ascii.eqb p "?" then
        fun s =>
          match s with
          | EmptyString => false
          | String _ s' => glob_match pattern' s'
          end
      else
        fun s =>
          match s with
          | EmptyString => false
          | String c s' => Ascii.eqb p c && glob_match pattern' s'
          end
  end.

(** Modelled from the spec: [ConvertToInteger] is a TODO in the source; the
    specification lets a numeric user ID be given in digits.  Used only to
    run the parser on concrete command lines. *)
Fixpoint decimal_digits (s : string) (acc : Z) : option Z :=
  match s with
  | EmptyString => Some acc
  | String c rest =>
      let d := Z.of_nat (nat_of_ascii c) - 48 in
      if (0 <=? d) && (d <=? 9) then decimal_digits rest (10 * acc + d)
      else None
  end.

(** Modelled from the spec: a non-empty run of digits is a user ID. *)
Definition numeric_user_id (s : string) : option Z :=
  match s with
  | EmptyString => None
  | _ => decimal_digits s 0
  end.

(** A host on which no account name resolves. *)
Definition no_account (userName : string) : option Z := None.

(** Sample nodes. *)
Definition regular_file (uid : Z) : fsnode :=
  FsNode (inr {| st_mode := Z.lor S_IFREG 420; st_uid := uid |}) (OpenFails 20).

Definition directory (uid : Z) (ents : dirents) : fsnode :=
  FsNode (inr {| st_mode := Z.lor S_IFDIR 493; st_uid := uid |}) (Stream ents None None).

(** Concatenation of two runs of directory entries. *)
Fixpoint dirents_app (before after : dirents) : dirents :=
  match before with
  | dnil => after
  | dcons d_name child rest => dcons d_name child (dirents_app rest after)
  end.

Definition is_Lstat (e : event) : bool :=
  match e with
  | Lstat _ => true
  | _ => false
  end.

(** A trace keeps to one handle at a time when, at every point of it, at
    most one stream is open, and none is open when a node is inspected. *)
Definition one_handle_at_a_time (tr : list event) : Prop :=
  forall pre post,
    tr = (pre ++ post)%list ->
    0 <= open_handles pre <= 1 /\
    (forall filePath post', post = Lstat filePath :: post' -> open_handles pre = 0).

(** A trace that also ends with no stream open. *)
Definition balanced (tr : list event) : Prop :=
  open_handles tr = 0 /\ one_handle_at_a_time tr.

(** Events that neither touch a handle nor inspect a node. *)
Definition passive (e : event) : Prop :=
  handle_delta e = 0 /\ is_Lstat e = false.

(** Arguments that the parser takes as whole actions: an action word on its
    own, or an action word with the operand that follows it. *)
Inductive whole_actions : list string -> Prop :=
| wa_nil : whole_actions []
| wa_flag (action : string) (rest : list string) :
    action = "-print" \/ action = "-ls" \/ action = "-nouser" ->
    whole_actions rest ->
    whole_actions (action :: rest)
| wa_operand (action operand : string) (rest : list string) :
    action = "-type" \/ action = "-user" \/ action = "-name" \/ action = "-path" ->
    whole_actions rest ->
    whole_actions (action :: operand :: rest).

(** Sample trees: [root/{., .., f1, sub/{f2}}], and a directory whose
    stream fails to close. *)
Definition sample_tree : fsnode :=
  directory 0
    (dcons "." (directory 0 dnil)
       (dcons ".." (directory 0 dnil)
          (dcons "f1" (regular_file 0)
             (dcons "sub" (directory 0 (dcons "f2" (regular_file 0) dnil))
                dnil)))).

Definition unclosable_tree : fsnode :=
  FsNode (inr {| st_mode := Z.lor S_IFDIR 493; st_uid := 0 |})
    (Stream (dcons "f1" (regular_file 0) dnil) None (Some 5)).

(** The walk of [sample_tree] with no option given. *)
Definition sample_walk : list event := SearchFile "root" sample_tree calloc_Args.

(** ** Further notions *)

(** [c] is one of the characters of [s]. *)
Fixpoint occurs (c : ascii) (s : string) : bool :=
  match s with
  | EmptyString => false
  | String x rest => Ascii.eqb x c || occurs c rest
  end.

(** The characters [ParseFileTypes] has a [case] for. *)
Definition file_type_chars : string := "bcdpfls".

(** What one character contributes to the test of the flag [flag]. *)
Definition flag_hit (flag : Z) (c : ascii) : bool :=
  match file_type_flag c with
  | Some f => truthy (Z.land f flag)
  | None => false
  end.

(** What the documentation of [struct Args] asks of its members: a pattern
    is there when its flag says so, and [fileTypes] holds flags of the
    enumeration only. *)
Definition Args_consistent (args : Args) : Prop :=
  (filterForNamePattern args = true <-> namePattern args <> None) /\
  (filterForPathPattern args = true <-> pathPattern args <> None) /\
  0 <= fileTypes args <= 127 /\
  (filterByFileType args = false -> fileTypes args = FileTypes.None) /\
  (filterByUserID args = false -> userID args = 0).

(** The path [main] starts the walk at, read off [argv]. *)
Definition start_path (argv : list string) : string :=
  match argv with
  | _ :: arg :: _ => if is_action arg then "." else arg
  | _ => "."
  end.

(** The entries of a stream as a list, in the order they are read. *)
Fixpoint dirents_to_list (ents : dirents) : FileList :=
  match ents with
  | dnil => []
  | dcons d_name child rest => (d_name, child) :: dirents_to_list rest
  end.

Definition is_Stdout (e : event) : bool :=
  match e with
  | Stdout _ => true
  | _ => false
  end.

Definition is_Stderr (e : event) : bool :=
  match e with
  | Stderr _ => true
  | _ => false
  end.

Definition is_Readdir (e : event) : bool :=
  match e with
  | Readdir _ => true
  | _ => false
  end.

(** The lines written to [stdout], in order. *)
Fixpoint stdout_lines (tr : list event) : list string :=
  match tr with
  | [] => []
  | Stdout line :: tr' => line :: stdout_lines tr'
  | _ :: tr' => stdout_lines tr'
  end.

(** The trace without what was written to [stdout]. *)
Definition without_stdout (tr : list event) : list event :=
  filter (fun e => negb (is_Stdout e)) tr.

(** [path] is [root] followed by something. *)
Definition extends (root path : string) : Prop :=
  exists rest, path = root ++ rest.

Definition Diagnostic_path (d : Diagnostic) : string :=
  match d with
  | ReadingInformationFailed filePath _ => filePath
  | OpeningDirectoryFailed directoryPath _ => directoryPath
  | ReadingDirectoryFailed directoryPath _ => directoryPath
  | ClosingDirectoryFailed directoryPath _ => directoryPath
  end.

(** Every path an event of the walk names extends [root]. *)
Definition event_below (root : string) (e : event) : Prop :=
  match e with
  | Lstat filePath => extends root filePath
  | Opendir directoryPath _ => extends root directoryPath
  | Readdir directoryPath => extends root directoryPath
  | Closedir directoryPath => extends root directoryPath
  | Stdout line => exists filePath, line = filePath ++ newline /\ extends root filePath
  | Stderr d => extends root (Diagnostic_path d)
  | StderrArgument _ => False
  | Usage => False
  end.

(** Depth of the streams of a tree: how many directories are nested. *)
Fixpoint height (n : fsnode) : Z :=
  match n with
  | FsNode _ dir => height_dir dir
  end
with height_dir (dir : dirstream) : Z :=
  match dir with
  | OpenFails _ => 0
  | Stream ents _ _ => 1 + height_ents ents
  end
with height_ents (ents : dirents) : Z :=
  match ents with
  | dnil => 0
  | dcons _ child rest => Z.max (height child) (height_ents rest)
  end.

(** Every [closedir] of the tree returns 0. *)
Fixpoint closes (n : fsnode) : bool :=
  match n with
  | FsNode _ dir => closes_dir dir
  end
with closes_dir (dir : dirstream) : bool :=
  match dir with
  | OpenFails _ => true
  | Stream ents _ cl =>
      match cl with
      | None => closes_ents ents
      | Some _ => false
      end
  end
with closes_ents (ents : dirents) : bool :=
  match ents with
  | dnil => true
  | dcons _ child rest => closes child && closes_ents rest
  end.

(** Every system call the walk makes on the tree succeeds: [lstat] on every
    node it inspects, and [opendir], every [readdir] and [closedir] on the
    nodes that [lstat] reports as directories.  The entries [.] and [..]
    are not inspected, and a node that is no directory is never opened. *)
Fixpoint healthy (n : fsnode) : bool :=
  match n with
  | FsNode (inl _) _ => false
  | FsNode (inr fileInfo) dir =>
      if S_ISDIR (st_mode fileInfo) then healthy_dir dir else true
  end
with healthy_dir (dir : dirstream) : bool :=
  match dir with
  | OpenFails _ => false
  | Stream ents None None => healthy_ents ents
  | Stream _ _ _ => false
  end
with healthy_ents (ents : dirents) : bool :=
  match ents with
  | dnil => true
  | dcons d_name child rest =>
      (is_dot d_name || healthy child) && healthy_ents rest
  end.

(** ** The second draft: [do_file] and [do_dir] with the list of names *)

Module SecondDraft.

(** The loop over [parms] compares each argument with the action words and
    does nothing in any branch. *)
Fixpoint scan_parms (parms : list string) : unit :=
  match parms with
  | [] => tt
  | parm :: rest =>
      let _ :=
        if negb (String.eqb parm "-ls") then tt
        else if negb (String.eqb parm "-user") then tt
        else if negb (String.eqb parm "-name") then tt
        else if negb (String.eqb parm "-type") then tt
        else if negb (String.eqb parm "-nouser") then tt
        else if negb (String.eqb parm "-path") then tt
        else tt in
      scan_parms rest
  end.

Definition PrintFileInformation (filePath : string) (fileInformation : stat)
  (parms : list string) : list event :=
  let _ := scan_parms parms in
  [Stdout (filePath ++ newline)].

Fixpoint do_file (file_name : string) (n : fsnode) (parms : list string) {struct n}
  : list event :=
  match n with
  | FsNode info dir =>
      Lstat file_name ::
      match info with
      | inl e => [Stderr (ReadingInformationFailed file_name e)]
      | inr fileInfo =>
          (PrintFileInformation file_name fileInfo parms ++
           (if S_ISDIR (st_mode fileInfo) then do_dir file_name dir parms else []))%list
      end
  end
with do_dir (dir_name : string) (dir : dirstream) (parms : list string) {struct dir}
  : list event :=
  match dir with
  | OpenFails e =>
      [Opendir dir_name false; Stderr (OpeningDirectoryFailed dir_name e)]
  | Stream ents rd cl =>
      Opendir dir_name true ::
      (fst (read_directory dir_name ents rd []) ++
       Closedir dir_name ::
       match cl with
       | Some e => [Stderr (ClosingDirectoryFailed dir_name e)]
       | None => do_list dir_name ents parms
       end)%list
  end
with do_list (dir_name : string) (ents : dirents) (parms : list string) {struct ents}
  : list event :=
  match ents with
  | dnil => []
  | dcons d_name child rest =>
      if is_dot d_name then do_list dir_name rest parms
      else
        (do_file (CombinePath dir_name d_name) child parms ++
         do_list dir_name rest parms)%list
  end.

(** [main]: the first argument, whatever it is, is the search path. *)
Definition main (argv : list string) (root : fsnode) : Z * list event :=
  let searchPath :=
    match argv with
    | _ :: arg :: _ => arg
    | _ => "."
    end in
  (0, do_file searchPath root argv).

End SecondDraft.

(** The nodes inspected and the lines printed, in order. *)
Definition observed (tr : list event) : list event :=
  filter (fun e => is_Lstat e || is_Stdout e) tr.

(** A trace that never holds more than [k] streams and ends with none. *)
Definition bounded (k : Z) (tr : list event) : Prop :=
  open_handles tr = 0 /\
  forall pre post, tr = (pre ++ post)%list -> 0 <= open_handles pre <= k.

(** ** The walks under a limit of open streams *)

(** [errno] of an [opendir] that finds no descriptor left. *)
Definition EMFILE : Z := 24.

(** The process can hold [limit] directory streams at a time, and [held]
    of them are open when the function is called: [opendir] fails with
    [EMFILE] when none is left, and answers as the node says otherwise.
    The code is that of [SearchFile] and [SearchDirectory]; the stream is
    closed before the list is searched, so the children start with [held]
    again. *)
Fixpoint SearchFile_fd (limit held : Z) (filePath : string) (n : fsnode) (args : Args)
  {struct n} : list event :=
  match n with
  | FsNode info dir =>
      Lstat filePath ::
      match info with
      | inl e => [Stderr (ReadingInformationFailed filePath e)]
      | inr fileInfo =>
          ((if ShouldPrintFileInformation filePath fileInfo args
            then PrintFileInformation filePath fileInfo args
            else []) ++
           (if S_ISDIR (st_mode fileInfo)
            then SearchDirectory_fd limit held filePath dir args
            else []))%list
      end
  end
with SearchDirectory_fd (limit held : Z) (directoryPath : string) (dir : dirstream)
  (args : Args) {struct dir} : list event :=
  if limit <=? held then
    [Opendir directoryPath false;
     Stderr (OpeningDirectoryFailed directoryPath EMFILE)]
  else
    match dir with
    | OpenFails e =>
        [Opendir directoryPath false;
         Stderr (OpeningDirectoryFailed directoryPath e)]
    | Stream ents rd cl =>
        Opendir directoryPath true ::
        (fst (read_directory directoryPath ents rd []) ++
         Closedir directoryPath ::
         match cl with
         | Some e => [Stderr (ClosingDirectoryFailed directoryPath e)]
         | None => SearchList_fd limit held directoryPath ents args
         end)%list
    end
with SearchList_fd (limit held : Z) (directoryPath : string) (ents : dirents)
  (args : Args) {struct ents} : list event :=
  match ents with
  | dnil => []
  | dcons d_name child rest =>
      if is_dot d_name then SearchList_fd limit held directoryPath rest args
      else
        (SearchFile_fd limit held (CombinePath directoryPath d_name) child args ++
         SearchList_fd limit held directoryPath rest args)%list
  end.

(** The same for the first draft: its stream stays open while the children
    are visited, so they start with one stream more. *)
Fixpoint do_file_fd (limit held : Z) (file_name : string) (n : fsnode) {struct n}
  : list event :=
  match n with
  | FsNode info dir =>
      Lstat file_name ::
      match info with
      | inl e => [Stderr (ReadingInformationFailed file_name e)]
      | inr fileInfo =>
          Stdout (file_name ++ newline) ::
          (if S_ISDIR (st_mode fileInfo)
           then do_dir_fd limit held file_name dir else [])
      end
  end
with do_dir_fd (limit held : Z) (dir_name : string) (dir : dirstream) {struct dir}
  : list event :=
  if limit <=? held then
    [Opendir dir_name false; Stderr (OpeningDirectoryFailed dir_name EMFILE)]
  else
    match dir with
    | OpenFails e =>
        [Opendir dir_name false; Stderr (OpeningDirectoryFailed dir_name e)]
    | Stream ents rd cl =>
        Opendir dir_name true ::
        (do_dir_loop_fd limit (held + 1) dir_name ents rd ++
         Closedir dir_name ::
         match cl with
         | Some e => [Stderr (ClosingDirectoryFailed dir_name e)]
         | None => []
         end)%list
    end
with do_dir_loop_fd (limit held : Z) (dir_name : string) (ents : dirents)
  (rd : option Z) {struct ents} : list event :=
  match ents with
  | dnil =>
      Readdir dir_name ::
      match rd with
      | Some e => [Stderr (ReadingDirectoryFailed dir_name e)]
      | None => []
      end
  | dcons d_name child rest =>
      Readdir dir_name ::
      ((if is_dot d_name then []
        else do_file_fd limit held (CombinePath dir_name d_name) child) ++
       do_dir_loop_fd limit held dir_name rest rd)%list
  end.

(** A directory whose information cannot be printed by a type filter for
    regular files, with one file in it; and a tree with a directory that
    does not close between two files. *)
Definition files_only : Args := set_fileTypes FileTypes.RegularFile calloc_Args.

Definition tree_with_unclosable : dirents :=
  dcons "f1" (regular_file 0)
    (dcons "bad"
       (FsNode (inr {| st_mode := Z.lor S_IFDIR 493; st_uid := 0 |})
          (Stream (dcons "x" (regular_file 0) dnil) None (Some 5)))
       (dcons "f2" (regular_file 0) dnil)).

(** ** Strings *)

Lemma append_assoc (a b c : string) : (a ++ b) ++ c = a ++ b ++ c.
Proof.
  induction a as [|x a IH]; simpl; [reflexivity|now rewrite IH].
Qed.

Lemma length_append (a b : string) :
  String.length (a ++ b) = (String.length a + String.length b)%nat.
Proof.
  induction a as [|x a IH]; simpl; [reflexivity|now rewrite IH].
Qed.

Lemma substring_append_prefix (a b : string) :
  String.substring 0 (String.length a) (a ++ b) = a.
Proof.
  induction a as [|x a IH]; simpl.
  - destruct b; reflexivity.
  - now rewrite IH.
Qed.

Lemma char_at_append_end (a : string) (c : ascii) (b : string) :
  char_at (a ++ String c b) (String.length a) = c.
Proof.
  unfold char_at. induction a as [|x a IH]; simpl; [reflexivity|exact IH].
Qed.

Lemma has_trailing_slash_append (a : string) :
  has_trailing_slash (a ++ "/") = true.
Proof.
  unfold has_trailing_slash. rewrite length_append. simpl.
  replace (String.length a + 1 - 1)%nat with (String.length a) by lia.
  rewrite char_at_append_end.
  replace (0 <? String.length a + 1)%nat with true
    by (symmetry; apply Nat.ltb_lt; lia).
  reflexivity.
Qed.

Lemma has_trailing_slash_cons (x y : ascii) (p : string) :
  has_trailing_slash (String x (String y p)) = has_trailing_slash (String y p).
Proof.
  unfold has_trailing_slash, char_at. simpl.
  rewrite Nat.sub_0_r. reflexivity.
Qed.

Lemma has_trailing_slash_split (p : string) :
  has_trailing_slash p = true -> exists a, p = a ++ "/".
Proof.
  induction p as [|x p IH]; intros H.
  - discriminate H.
  - destruct p as [|y p].
    + unfold has_trailing_slash, char_at in H. simpl in H.
      apply Ascii.eqb_eq in H. subst x. exists "". reflexivity.
    + rewrite has_trailing_slash_cons in H.
      destruct (IH H) as [a Ha]. exists (String x a). simpl. now rewrite <- Ha.
Qed.

Lemma has_leading_slash_split (p : string) :
  has_leading_slash p = true -> exists b, p = "/" ++ b.
Proof.
  destruct p as [|x p]; intros H; [discriminate H|].
  unfold has_leading_slash, char_at in H. simpl in H.
  apply Ascii.eqb_eq in H. subst x. exists p. reflexivity.
Qed.

(** [CombinePath] on two non-empty strings, with the two tests named. *)
Lemma CombinePath_nonempty (path1 path2 : string) :
  path1 <> "" -> path2 <> "" ->
  CombinePath path1 path2 =
    if has_trailing_slash path1 && has_leading_slash path2 then
      String.substring 0 (String.length path1 - 1) path1 ++ path2
    else if has_trailing_slash path1 || has_leading_slash path2 then
      path1 ++ path2
    else path1 ++ "/" ++ path2.
Proof.
  intros H1 H2.
  destruct path1 as [|x p1]; [congruence|].
  destruct path2 as [|y p2]; [congruence|].
  unfold CombinePath, has_trailing_slash, has_leading_slash, strncat.
  cbn [String.length Nat.eqb andb].
  cbv zeta.
  change ("" ++ String x p1) with (String x p1).
  change ("" ++ String.substring 0 (S (String.length p1) - 1) (String x p1))
    with (String.substring 0 (S (String.length p1) - 1) (String x p1)).
  rewrite append_assoc. reflexivity.
Qed.

(** ** The path joiner *)

(** C8.  [CombinePath] returns the other operand when one is empty (the
    empty string when both are), gives ["a/b"] for the three ways of writing
    the junction of ["a"] and ["b"], and on two non-empty operands puts
    exactly one separator at the junction: a separator that ends the first
    operand and one that starts the second are merged into it, and the rest
    of both operands is copied unchanged. *)
Theorem CombinePath_junction :
  CombinePath "" "" = "" /\
  (forall x, CombinePath "" x = x) /\
  (forall x, CombinePath x "" = x) /\
  (CombinePath "a/" "/b" = "a/b" /\
   CombinePath "a" "b" = "a/b" /\
   CombinePath "a/" "b" = "a/b") /\
  (forall a b, CombinePath (a ++ "/") ("/" ++ b) = a ++ "/" ++ b) /\
  (forall a b, b <> "" -> has_leading_slash b = false ->
     CombinePath (a ++ "/") b = a ++ "/" ++ b) /\
  (forall a b, a <> "" -> has_trailing_slash a = false ->
     CombinePath a ("/" ++ b) = a ++ "/" ++ b) /\
  (forall a b, a <> "" -> b <> "" ->
     has_trailing_slash a = false -> has_leading_slash b = false ->
     CombinePath a b = a ++ "/" ++ b) /\
  (forall p, has_trailing_slash p = true -> exists a, p = a ++ "/") /\
  (forall p, has_leading_slash p = true -> exists b, p = "/" ++ b).
Proof.
  assert (Hne : forall a, a ++ "/" <> "") by (intros [|? ?]; discriminate).
  repeat split; try reflexivity.
  - intros [|c x]; reflexivity.
  - intros [|c x]; reflexivity.
  - intros a b.
    rewrite CombinePath_nonempty by (auto; discriminate).
    rewrite has_trailing_slash_append.
    change (has_leading_slash ("/" ++ b)) with true. cbn [andb].
    rewrite length_append. simpl String.length.
    replace (String.length a + 1 - 1)%nat with (String.length a) by lia.
    rewrite substring_append_prefix. reflexivity.
  - intros a b Hb Hlead.
    rewrite CombinePath_nonempty by auto.
    rewrite has_trailing_slash_append, Hlead. cbn [andb orb].
    apply append_assoc.
  - intros a b Ha Htrail.
    rewrite CombinePath_nonempty by (auto; discriminate).
    rewrite Htrail. change (has_leading_slash ("/" ++ b)) with true.
    reflexivity.
  - intros a b Ha Hb Htrail Hlead.
    rewrite CombinePath_nonempty by auto.
    rewrite Htrail, Hlead. reflexivity.
  - apply has_trailing_slash_split.
  - apply has_leading_slash_split.
Qed.

Lemma CombinePath_junction_witness :
  ("usr" <> "" /\ "bin" <> "" /\
   has_trailing_slash "usr" = false /\ has_leading_slash "bin" = false) /\
  CombinePath "usr" "bin" = "usr" ++ "/" ++ "bin".
Proof.
  assert (H1 : "usr" <> "") by discriminate.
  assert (H2 : "bin" <> "") by discriminate.
  assert (H3 : has_trailing_slash "usr" = false) by reflexivity.
  assert (H4 : has_leading_slash "bin" = false) by reflexivity.
  split; [repeat split; assumption|].
  exact (proj1 (proj2 (proj2 (proj2 (proj2 (proj2 (proj2 (proj2
           CombinePath_junction))))))) "usr" "bin" H1 H2 H3 H4).
Defined.

(** ** The predicate evaluator *)

(** With no filter flag set [ShouldPrintFileInformation] returns true for
    every entry, so [SearchFile] hands every node whose information it
    could read to [PrintFileInformation]; in the simple format that prints
    the path. *)
Theorem no_filter_prints_every_entry :
  forall filePath fileInfo args,
    no_filter_active args ->
    ShouldPrintFileInformation filePath fileInfo args = true /\
    (forall dir,
       SearchFile filePath (FsNode (inr fileInfo) dir) args =
       (Lstat filePath ::
        PrintFileInformation filePath fileInfo args ++
        (if S_ISDIR (st_mode fileInfo)
         then SearchDirectory filePath dir args else []))%list) /\
    (printInExtendedFormat args = false ->
     PrintFileInformation filePath fileInfo args = [Stdout (filePath ++ newline)]).
Proof.
  intros filePath fileInfo args (Ht & Hu & Hn & Hp & Hq).
  assert (Hs : ShouldPrintFileInformation filePath fileInfo args = true).
  { unfold ShouldPrintFileInformation. now rewrite Ht, Hu, Hn, Hp, Hq. }
  split; [exact Hs|split].
  - intros dir. cbn [SearchFile]. now rewrite Hs.
  - intros Hfmt. unfold PrintFileInformation. now rewrite Hfmt.
Qed.

Lemma no_filter_prints_every_entry_witness :
  no_filter_active calloc_Args /\
  ShouldPrintFileInformation "." {| st_mode := S_IFDIR; st_uid := 0 |} calloc_Args = true.
Proof.
  assert (H : no_filter_active calloc_Args) by (repeat split).
  split; [exact H|].
  exact (proj1 (no_filter_prints_every_entry "."
                  {| st_mode := S_IFDIR; st_uid := 0 |} calloc_Args H)).
Defined.

(** C1.  The command line [myfind /tmp -type d -user 0] sets the type filter
    and the owner filter.  For a directory owned by user 1000 the type
    filter is satisfied and the owner filter is not, and
    [ShouldPrintFileInformation] returns true: the first branch of the
    chain returns before the owner is looked at. *)
Theorem type_filter_shadows_owner_filter :
  exists args,
    ParseCommandLineArgs numeric_user_id no_account
      ["myfind"; "/tmp"; "-type"; "d"; "-user"; "0"] calloc_Args = inr args /\
    filterByFileType args = true /\
    filterByUserID args = true /\
    let info := {| st_mode := Z.lor S_IFDIR 493; st_uid := 1000 |} in
    file_type_selected info args = true /\
    user_id_selected info args = false /\
    ShouldPrintFileInformation "/tmp" info args = true.
Proof.
  eexists. split; [reflexivity|]. repeat split.
Qed.

(** C4.  The command line [myfind . -name *.txt] sets the name filter.
    The pattern matches the base name [notes.txt], and
    [ShouldPrintFileInformation] returns false for [./notes.txt]: the
    branch of the name filter returns false without matching anything. *)
Theorem name_filter_rejects_matching_name :
  exists args,
    ParseCommandLineArgs numeric_user_id no_account
      ["myfind"; "."; "-name"; "*.txt"] calloc_Args = inr args /\
    filterForNamePattern args = true /\
    namePattern args = Some "*.txt" /\
    glob_match "*.txt" "notes.txt" = true /\
    ShouldPrintFileInformation "./notes.txt"
      {| st_mode := Z.lor S_IFREG 420; st_uid := 1000 |} args = false.
Proof.
  eexists. split; [reflexivity|]. repeat split.
Qed.

(** ** The walk *)

Lemma S_ISLNK_not_S_ISDIR (m : Z) : S_ISLNK m = true -> S_ISDIR m = false.
Proof.
  unfold S_ISLNK, S_ISDIR. intros H.
  apply Z.eqb_eq in H. rewrite H. reflexivity.
Qed.

Lemma SearchDirectory_opens (directoryPath : string) (dir : dirstream) (args : Args) :
  exists opened tr,
    SearchDirectory directoryPath dir args = Opendir directoryPath opened :: tr.
Proof.
  destruct dir as [e|ents rd cl]; cbn [SearchDirectory]; eauto.
Qed.

Lemma PrintFileInformation_prints (filePath : string) (fileInfo : stat) (args : Args) :
  forall e, In e (PrintFileInformation filePath fileInfo args) ->
            e = Stdout (filePath ++ newline).
Proof.
  unfold PrintFileInformation. intros e.
  destruct (printInExtendedFormat args); simpl; intuition congruence.
Qed.

Lemma SearchList_app (directoryPath : string) (before after : dirents) (args : Args) :
  SearchList directoryPath (dirents_app before after) args =
  (SearchList directoryPath before args ++ SearchList directoryPath after args)%list.
Proof.
  induction before as [|d_name child rest IH].
  - reflexivity.
  - cbn [dirents_app SearchList]. rewrite IH.
    destruct (is_dot d_name); [reflexivity|]. now rewrite app_assoc.
Qed.

(** C7.  When [lstat] fails for a path, [SearchFile] writes the one
    diagnostic with the path and [errno] and returns: nothing is printed and
    nothing is opened or inspected below the path, whatever is there.  The
    loop of the directory that listed the name goes on: the names before it
    have been searched and the names after it are searched as if nothing
    had happened. *)
Theorem lstat_failure_is_local :
  forall filePath e dir args,
    SearchFile filePath (FsNode (inl e) dir) args =
      [Lstat filePath; Stderr (ReadingInformationFailed filePath e)] /\
    (forall directoryPath d_name before after,
       is_dot d_name = false ->
       SearchList directoryPath
         (dirents_app before (dcons d_name (FsNode (inl e) dir) after)) args =
       (SearchList directoryPath before args ++
        [Lstat (CombinePath directoryPath d_name);
         Stderr (ReadingInformationFailed (CombinePath directoryPath d_name) e)] ++
        SearchList directoryPath after args)%list).
Proof.
  intros filePath e dir args. split; [reflexivity|].
  intros directoryPath d_name before after Hdot.
  rewrite SearchList_app. cbn [SearchList SearchFile]. now rewrite Hdot.
Qed.

Lemma lstat_failure_is_local_witness :
  is_dot "gone" = false /\
  SearchList "root"
    (dirents_app (dcons "f1" (regular_file 0) dnil)
       (dcons "gone" (FsNode (inl 2) (Stream (dcons "x" (regular_file 0) dnil) None None))
          (dcons "f2" (regular_file 0) dnil))) calloc_Args =
  (SearchList "root" (dcons "f1" (regular_file 0) dnil) calloc_Args ++
   [Lstat (CombinePath "root" "gone");
    Stderr (ReadingInformationFailed (CombinePath "root" "gone") 2)] ++
   SearchList "root" (dcons "f2" (regular_file 0) dnil) calloc_Args)%list.
Proof.
  assert (H : is_dot "gone" = false) by reflexivity.
  split; [exact H|].
  exact (proj2 (lstat_failure_is_local "root/gone" 2
                  (Stream (dcons "x" (regular_file 0) dnil) None None) calloc_Args)
           "root" "gone" (dcons "f1" (regular_file 0) dnil)
           (dcons "f2" (regular_file 0) dnil) H).
Defined.

(** ** The read loop and the list of names *)

Lemma read_directory_passive (directoryPath : string) (rd : option Z) :
  forall ents head, Forall passive (fst (read_directory directoryPath ents rd head)).
Proof.
  induction ents as [|d_name child rest IH]; intros head.
  - cbn [read_directory fst].
    constructor; [split; reflexivity|].
    destruct rd; [constructor; [split; reflexivity|]|]; constructor.
  - cbn [read_directory].
    specialize (IH (if is_dot d_name then head else AddListNode head (d_name, child))).
    destruct (read_directory directoryPath rest rd
                (if is_dot d_name then head else AddListNode head (d_name, child)))
      as [tr head'].
    cbn [fst] in *. constructor; [split; reflexivity|exact IH].
Qed.

Lemma read_directory_no_Lstat (directoryPath : string) (rd : option Z)
  (ents : dirents) (head : FileList) (filePath : string) :
  ~ In (Lstat filePath) (fst (read_directory directoryPath ents rd head)).
Proof.
  intros Hin.
  pose proof (read_directory_passive directoryPath rd ents head) as Hall.
  rewrite Forall_forall in Hall. destruct (Hall _ Hin) as [_ Hl]. discriminate Hl.
Qed.

(** The loop over the entries is the loop over the list the read loop
    built, in the order of the list. *)
Lemma SearchList_FileList (directoryPath : string) (rd : option Z) (args : Args) :
  forall ents head,
    SearchFileList directoryPath
      (snd (read_directory directoryPath ents rd head)) args =
    (SearchFileList directoryPath head args ++
     SearchList directoryPath ents args)%list.
Proof.
  unfold SearchFileList.
  induction ents as [|d_name child rest IH]; intros head.
  - cbn [read_directory snd SearchList]. now rewrite app_nil_r.
  - cbn [read_directory SearchList].
    specialize (IH (if is_dot d_name then head else AddListNode head (d_name, child))).
    destruct (read_directory directoryPath rest rd
                (if is_dot d_name then head else AddListNode head (d_name, child)))
      as [tr head'].
    cbn [snd] in *. rewrite IH.
    destruct (is_dot d_name); [reflexivity|].
    unfold AddListNode. rewrite flat_map_app. cbn [flat_map fst snd].
    rewrite app_nil_r. now rewrite app_assoc.
Qed.

(** C3 as the claim states it fails: the stream of [root] delivers [f1],
    [closedir] returns -1, and [root/f1] is never inspected. *)
Lemma close_failure_skips_listed_child :
  In ("f1", regular_file 0)
     (snd (read_directory "root" (dcons "f1" (regular_file 0) dnil) None [])) /\
  SearchFile "root" unclosable_tree calloc_Args =
    [Lstat "root"; Stdout ("root" ++ newline); Opendir "root" true;
     Readdir "root"; Readdir "root"; Closedir "root";
     Stderr (ClosingDirectoryFailed "root" 5)] /\
  ~ In (Lstat (CombinePath "root" "f1"))
       (SearchFile "root" unclosable_tree calloc_Args).
Proof.
  split; [now left|]. split; [reflexivity|].
  cbv. intuition discriminate.
Qed.

(** C3, amended.  When [closedir] fails, [SearchDirectory] writes the
    diagnostic with the path and [errno] and returns: the trace ends there
    and no listed name is inspected.  The loop of the parent directory goes
    on: the names before the directory have been searched, and the names
    after it are searched next. *)
Theorem close_failure_abandons_directory :
  forall directoryPath ents rd e args,
    SearchDirectory directoryPath (Stream ents rd (Some e)) args =
      (Opendir directoryPath true ::
       fst (read_directory directoryPath ents rd []) ++
       [Closedir directoryPath;
        Stderr (ClosingDirectoryFailed directoryPath e)])%list /\
    (forall filePath,
       ~ In (Lstat filePath)
            (SearchDirectory directoryPath (Stream ents rd (Some e)) args)) /\
    (forall parentPath d_name fileInfo before after,
       is_dot d_name = false ->
       S_ISDIR (st_mode fileInfo) = true ->
       directoryPath = CombinePath parentPath d_name ->
       SearchList parentPath
         (dirents_app before
            (dcons d_name (FsNode (inr fileInfo) (Stream ents rd (Some e))) after))
         args =
       (SearchList parentPath before args ++
        Lstat directoryPath ::
        (if ShouldPrintFileInformation directoryPath fileInfo args
         then PrintFileInformation directoryPath fileInfo args else []) ++
        Opendir directoryPath true ::
        fst (read_directory directoryPath ents rd []) ++
        [Closedir directoryPath;
         Stderr (ClosingDirectoryFailed directoryPath e)] ++
        SearchList parentPath after args)%list).
Proof.
  intros directoryPath ents rd e args. split; [reflexivity|]. split.
  - intros filePath Hin. cbn [SearchDirectory] in Hin.
    destruct Hin as [Hin|Hin]; [discriminate Hin|].
    apply in_app_or in Hin. destruct Hin as [Hin|Hin].
    + exact (read_directory_no_Lstat _ _ _ _ _ Hin).
    + cbn in Hin. intuition discriminate.
  - intros parentPath d_name fileInfo before after Hdot Hdir ->.
    rewrite SearchList_app. cbn [SearchList SearchFile SearchDirectory].
    rewrite Hdot, Hdir. f_equal. cbn [app]. f_equal.
    rewrite <- !app_assoc. f_equal. cbn [app]. f_equal.
    rewrite <- !app_assoc. reflexivity.
Qed.

Lemma close_failure_abandons_directory_witness :
  (is_dot "bad" = false /\
   S_ISDIR (Z.lor S_IFDIR 493) = true /\
   "root/bad" = CombinePath "root" "bad") /\
  SearchList "root" tree_with_unclosable calloc_Args =
    [Lstat "root/f1"; Stdout ("root/f1" ++ newline);
     Lstat "root/bad"; Stdout ("root/bad" ++ newline);
     Opendir "root/bad" true; Readdir "root/bad"; Readdir "root/bad";
     Closedir "root/bad"; Stderr (ClosingDirectoryFailed "root/bad" 5);
     Lstat "root/f2"; Stdout ("root/f2" ++ newline)].
Proof.
  assert (H1 : is_dot "bad" = false) by reflexivity.
  assert (H2 : S_ISDIR (st_mode {| st_mode := Z.lor S_IFDIR 493; st_uid := 0 |}) = true)
    by reflexivity.
  assert (H3 : "root/bad" = CombinePath "root" "bad") by reflexivity.
  split; [repeat split; assumption|].
  exact (proj2 (proj2 (close_failure_abandons_directory "root/bad"
                         (dcons "x" (regular_file 0) dnil) None 5 calloc_Args))
           "root" "bad" {| st_mode := Z.lor S_IFDIR 493; st_uid := 0 |}
           (dcons "f1" (regular_file 0) dnil) (dcons "f2" (regular_file 0) dnil)
           H1 H2 H3).
Defined.

(** ** One directory handle at a time *)

Lemma open_handles_app (a b : list event) :
  open_handles (a ++ b) = open_handles a + open_handles b.
Proof.
  induction a as [|e a IH]; cbn [open_handles app]; lia.
Qed.

Lemma open_handles_passive (tr : list event) :
  Forall passive tr -> open_handles tr = 0.
Proof.
  induction 1 as [|e tr [He _] _ IH]; cbn [open_handles]; lia.
Qed.

Lemma balanced_nil : balanced [].
Proof.
  split; [reflexivity|].
  intros pre post H. symmetry in H. apply app_eq_nil in H. destruct H; subst.
  split; [cbn; lia|]. intros ? ? H. discriminate H.
Qed.

Lemma balanced_app (a b : list event) :
  balanced a -> balanced b -> balanced (a ++ b).
Proof.
  intros [Ha0 Ha] [Hb0 Hb]. split.
  - rewrite open_handles_app. lia.
  - intros pre post H. apply app_eq_app in H.
    destruct H as [l [[H1 H2]|[H1 H2]]].
    + (* the cut falls in [a] *)
      destruct (Ha pre l H1) as [Hr Hl]. split; [exact Hr|].
      intros filePath post' Hp. subst post.
      destruct l as [|x l].
      * cbn [app] in Hp. destruct (Hb [] b eq_refl) as [_ Hb'].
        rewrite app_nil_r in H1. subst pre. exact Ha0.
      * cbn [app] in Hp. injection Hp as Hx _. subst x.
        exact (Hl filePath l eq_refl).
    + (* the cut falls in [b] *)
      subst pre. destruct (Hb l post H2) as [Hr Hl].
      rewrite open_handles_app, Ha0. split; [lia|].
      intros filePath post' Hp. rewrite (Hl filePath post' Hp). lia.
Qed.

Lemma balanced_single (e : event) : handle_delta e = 0 -> balanced [e].
Proof.
  intros He. split; [cbn [open_handles]; lia|].
  intros pre post H. destruct pre as [|x pre].
  - split; [cbn; lia|reflexivity].
  - cbn [app] in H. injection H as Hx H. subst x.
    symmetry in H. apply app_eq_nil in H. destruct H; subst.
    cbn [open_handles]. split; [lia|]. intros ? ? H. discriminate H.
Qed.

Lemma balanced_cons (e : event) (tr : list event) :
  handle_delta e = 0 -> balanced tr -> balanced (e :: tr).
Proof.
  intros He Htr. change (e :: tr) with ([e] ++ tr)%list.
  apply balanced_app; [now apply balanced_single|exact Htr].
Qed.

(** A stream that is opened, read and closed with nothing else in between
    holds one handle, and holds it only until [closedir] is called. *)
Lemma balanced_stream (directoryPath : string) (reads tl : list event) :
  Forall passive reads -> balanced tl ->
  balanced (Opendir directoryPath true :: reads ++ Closedir directoryPath :: tl).
Proof.
  intros Hreads Htl.
  replace (Opendir directoryPath true :: reads ++ Closedir directoryPath :: tl)
    with ((Opendir directoryPath true :: reads ++ [Closedir directoryPath]) ++ tl)%list
    by (cbn [app]; now rewrite <- app_assoc).
  apply balanced_app; [|exact Htl]. clear tl Htl.
  split.
  - cbn [open_handles handle_delta]. rewrite open_handles_app.
    rewrite (open_handles_passive _ Hreads). cbn. lia.
  - intros pre post H. destruct pre as [|x pre].
    + cbn [app] in H. subst post. split; [cbn; lia|]. intros ? ? H. discriminate H.
    + cbn [app] in H. injection H as Hx H. subst x.
      apply app_eq_app in H. destruct H as [l [[H1 H2]|[H1 H2]]].
      * (* the cut falls in the reads *)
        assert (Hpre : Forall passive pre).
        { rewrite H1 in Hreads. now apply Forall_app in Hreads. }
        cbn [open_handles handle_delta]. rewrite (open_handles_passive _ Hpre).
        split; [lia|]. intros filePath post' Hp. subst post.
        rewrite H1 in Hreads. apply Forall_app in Hreads. destruct Hreads as [_ Hl].
        destruct l as [|y l]; [discriminate Hp|].
        cbn [app] in Hp. injection Hp as Hy _. subst y.
        inversion Hl as [|? ? [_ Hy] _]. discriminate Hy.
      * (* the cut falls at or after [closedir] *)
        destruct l as [|y l].
        -- cbn [app] in H2. subst post. rewrite app_nil_r in H1. subst pre.
           cbn [open_handles handle_delta]. rewrite (open_handles_passive _ Hreads).
           split; [lia|]. intros ? ? H. discriminate H.
        -- cbn [app] in H2. injection H2 as Hy H2. subst y.
           symmetry in H2. apply app_eq_nil in H2. destruct H2; subst l post.
           subst pre. cbn [open_handles handle_delta].
           rewrite open_handles_app, (open_handles_passive _ Hreads).
           cbn. split; [lia|]. intros ? ? H. discriminate H.
Qed.

Lemma SearchFile_balanced :
  (forall n filePath args, balanced (SearchFile filePath n args)) /\
  (forall dir directoryPath args, balanced (SearchDirectory directoryPath dir args)) /\
  (forall ents directoryPath args, balanced (SearchList directoryPath ents args)).
Proof.
  apply fs_mutind.
  - intros info dir IH filePath args. cbn [SearchFile].
    apply balanced_cons; [reflexivity|].
    destruct info as [e|fileInfo].
    + apply balanced_single. reflexivity.
    + apply balanced_app.
      * destruct (ShouldPrintFileInformation filePath fileInfo args);
          [|apply balanced_nil].
        unfold PrintFileInformation.
        destruct (printInExtendedFormat args);
          [apply balanced_nil|apply balanced_single; reflexivity].
      * destruct (S_ISDIR (st_mode fileInfo)); [apply IH|apply balanced_nil].
  - intros e directoryPath args. cbn [SearchDirectory].
    apply balanced_cons; [reflexivity|]. apply balanced_single. reflexivity.
  - intros ents IH rd cl directoryPath args. cbn [SearchDirectory].
    apply balanced_stream; [apply read_directory_passive|].
    destruct cl as [e|]; [apply balanced_single; reflexivity|apply IH].
  - intros directoryPath args. apply balanced_nil.
  - intros d_name child IHc rest IHr directoryPath args. cbn [SearchList].
    destruct (is_dot d_name); [apply IHr|].
    apply balanced_app; [apply IHc|apply IHr].
Qed.

(** The final program.  [SearchDirectory] opens the stream, reads it to
    its end into the list of names, calls [closedir], and only then
    searches the listed
    names, in the order of the list: while the stream is read nothing else
    is opened and no node is inspected.  So at every point of a walk at
    most one stream is open, and none is open whenever a node is inspected,
    however deep or wide the tree is. *)
Theorem SearchDirectory_closes_before_descending :
  (forall directoryPath ents rd args,
     SearchDirectory directoryPath (Stream ents rd None) args =
       (Opendir directoryPath true ::
        fst (read_directory directoryPath ents rd []) ++
        Closedir directoryPath ::
        SearchFileList directoryPath
          (snd (read_directory directoryPath ents rd [])) args)%list /\
     Forall passive (fst (read_directory directoryPath ents rd []))) /\
  (forall filePath n args pre post,
     SearchFile filePath n args = (pre ++ post)%list ->
     0 <= open_handles pre <= 1 /\
     (forall inspected post',
        post = Lstat inspected :: post' -> open_handles pre = 0)).
Proof.
  split.
  - intros directoryPath ents rd args. split.
    + cbn [SearchDirectory]. now rewrite SearchList_FileList.
    + apply read_directory_passive.
  - intros filePath n args pre post H.
    destruct SearchFile_balanced as [Hn _].
    destruct (Hn n filePath args) as [_ Hd]. exact (Hd pre post H).
Qed.

Lemma SearchDirectory_closes_before_descending_witness :
  sample_walk = (firstn 14 sample_walk ++ skipn 14 sample_walk)%list /\
  0 <= open_handles (firstn 14 sample_walk) <= 1.
Proof.
  assert (H : sample_walk = (firstn 14 sample_walk ++ skipn 14 sample_walk)%list)
    by reflexivity.
  split; [exact H|].
  exact (proj1 (proj2 SearchDirectory_closes_before_descending
                  "root" sample_tree calloc_Args
                  (firstn 14 sample_walk) (skipn 14 sample_walk) H)).
Defined.

(** C5.  The first draft does not close before it descends: [do_dir]
    visits the children from inside the read loop, so when [root/sub/f2] is
    inspected the streams of [root] and of [root/sub] are both open.  The
    comment in [SearchDirectory] gives this as the reason for the list. *)
Lemma do_dir_keeps_stream_open :
  let tr := do_file "root" sample_tree in
  tr = (firstn 13 tr ++ skipn 13 tr)%list /\
  open_handles (firstn 13 tr) = 2 /\
  skipn 13 tr = Lstat "root/sub/f2" :: skipn 14 tr.
Proof.
  repeat split.
Qed.

(** ** The command line *)

Section CommandLineFacts.

Variable ConvertToInteger : string -> option Z.
Variable QueryUserID : string -> option Z.

Local Notation loop := (ParseCommandLineArgs_loop ConvertToInteger QueryUserID).

Lemma is_action_false (arg : string) :
  is_action arg = false ->
  String.eqb arg "-print" = false /\ String.eqb arg "-ls" = false /\
  String.eqb arg "-type" = false /\ String.eqb arg "-user" = false /\
  String.eqb arg "-nouser" = false /\ String.eqb arg "-name" = false /\
  String.eqb arg "-path" = false.
Proof.
  unfold is_action. intros H.
  repeat (apply orb_false_iff in H; destruct H as [H ?]).
  repeat split; assumption.
Qed.

Lemma loop_not_action (i : nat) (arg : string) (rest : list string) (args : Args) :
  is_action arg = false ->
  loop i (arg :: rest) args =
    if Nat.eqb i 1 then loop (S i) rest (set_searchPath arg args)
    else inl (UnknownArgument i arg).
Proof.
  intros H. apply is_action_false in H.
  destruct H as (H1 & H2 & H3 & H4 & H5 & H6 & H7).
  cbn [ParseCommandLineArgs_loop].
  now rewrite H1, H2, H3, H4, H5, H6, H7.
Qed.

Lemma loop_whole_actions (arg : string) (rest : list string) :
  is_action arg = false ->
  forall actions, whole_actions actions ->
  forall i args, (i + List.length actions <> 1)%nat ->
  exists err, loop i (actions ++ arg :: rest)%list args = inl err.
Proof.
  intros Harg actions Hwa.
  induction Hwa as [|action tl Hflag Hwa IH|action operand tl Hop Hwa IH];
    intros i args Hi.
  - cbn [app]. rewrite loop_not_action by exact Harg.
    cbn [List.length] in Hi.
    destruct (Nat.eqb_spec i 1); [lia|eauto].
  - cbn [List.length] in Hi.
    assert (Hi' : (S i + List.length tl <> 1)%nat) by lia.
    destruct Hflag as [->|[->| ->]]; cbn [app];
      cbn [ParseCommandLineArgs_loop String.eqb Ascii.eqb Bool.eqb andb];
      apply IH; exact Hi'.
  - cbn [List.length] in Hi.
    assert (Hi' : (S (S i) + List.length tl <> 1)%nat) by lia.
    destruct Hop as [->|[->|[->| ->]]]; cbn [app];
      cbn [ParseCommandLineArgs_loop String.eqb Ascii.eqb Bool.eqb andb].
    + destruct (ParseFileTypes operand); [apply IH; exact Hi'|eauto].
    + destruct (ConvertToInteger operand); [apply IH; exact Hi'|].
      destruct (QueryUserID operand); [apply IH; exact Hi'|eauto].
    + apply IH; exact Hi'.
    + apply IH; exact Hi'.
Qed.

End CommandLineFacts.

(** C2 as the claim states it fails: [myfind . -user 0 -nouser] is parsed
    without an error, both owner flags are set, [main] returns 0 and the
    walk takes place. *)
Lemma user_and_nouser_are_accepted :
  exists args,
    ParseCommandLineArgs numeric_user_id no_account
      ["myfind"; "."; "-user"; "0"; "-nouser"] calloc_Args = inr args /\
    filterByUserID args = true /\
    filterForNoUser args = true /\
    main numeric_user_id no_account
      ["myfind"; "."; "-user"; "0"; "-nouser"] sample_tree =
      (0, SearchFile "." sample_tree args) /\
    In (Lstat "./sub/f2") (SearchFile "." sample_tree args).
Proof.
  eexists. split; [reflexivity|]. repeat split. cbv. tauto.
Qed.

(** C2, amended.  Neither owner action looks at the flag of the other:
    [-nouser] sets its flag and parsing goes on, [-user] with an operand
    that converts or resolves sets its flag and the ID and parsing goes on.
    A command line with both is parsed without an error, with both flags
    set, and [main] starts the walk.  In [ShouldPrintFileInformation] the
    owner-ID filter is tested before the no-owner filter and decides. *)
Theorem owner_filters_are_not_exclusive :
  forall ConvertToInteger QueryUserID : string -> option Z,
    (forall i rest args,
       ParseCommandLineArgs_loop ConvertToInteger QueryUserID i ("-nouser" :: rest) args =
       ParseCommandLineArgs_loop ConvertToInteger QueryUserID (S i) rest
         (set_filterForNoUser args)) /\
    (forall i operand u rest args,
       ConvertToInteger operand = Some u \/
       (ConvertToInteger operand = None /\ QueryUserID operand = Some u) ->
       ParseCommandLineArgs_loop ConvertToInteger QueryUserID i
         ("-user" :: operand :: rest) args =
       ParseCommandLineArgs_loop ConvertToInteger QueryUserID (S (S i)) rest
         (set_userID u args)) /\
    (forall exe operand u root,
       ConvertToInteger operand = Some u ->
       let args := set_filterForNoUser (set_userID u calloc_Args) in
       ParseCommandLineArgs ConvertToInteger QueryUserID
         [exe; "-user"; operand; "-nouser"] calloc_Args = inr args /\
       ParseCommandLineArgs ConvertToInteger QueryUserID
         [exe; "-nouser"; "-user"; operand] calloc_Args = inr args /\
       filterByUserID args = true /\ filterForNoUser args = true /\
       main ConvertToInteger QueryUserID [exe; "-user"; operand; "-nouser"] root =
         (0, SearchFile "." root args)) /\
    (forall filePath fileInformation args,
       filterByFileType args = false ->
       filterByUserID args = true ->
       ShouldPrintFileInformation filePath fileInformation args =
       user_id_selected fileInformation args).
Proof.
  intros ConvertToInteger QueryUserID. repeat split.
  - intros i operand u rest args [H|[H1 H2]];
      cbn [ParseCommandLineArgs_loop String.eqb Ascii.eqb Bool.eqb andb].
    + now rewrite H.
    + now rewrite H1, H2.
  - unfold ParseCommandLineArgs.
    cbn [tl ParseCommandLineArgs_loop String.eqb Ascii.eqb Bool.eqb andb].
    now rewrite H.
  - unfold ParseCommandLineArgs.
    cbn [tl ParseCommandLineArgs_loop String.eqb Ascii.eqb Bool.eqb andb].
    now rewrite H.
  - unfold main, ParseCommandLineArgs.
    cbn [tl ParseCommandLineArgs_loop String.eqb Ascii.eqb Bool.eqb andb].
    now rewrite H.
  - intros filePath fileInformation args Ht Hu.
    unfold ShouldPrintFileInformation. now rewrite Ht, Hu.
Qed.

Lemma owner_filters_are_not_exclusive_witness :
  numeric_user_id "0" = Some 0 /\
  ParseCommandLineArgs numeric_user_id no_account
    ["myfind"; "-user"; "0"; "-nouser"] calloc_Args =
    inr (set_filterForNoUser (set_userID 0 calloc_Args)).
Proof.
  assert (H : numeric_user_id "0" = Some 0) by reflexivity.
  split; [exact H|].
  exact (proj1 (proj1 (proj2 (proj2
    (owner_filters_are_not_exclusive numeric_user_id no_account)))
    "myfind" "0" 0 sample_tree H)).
Defined.

(** ** [ParseFileTypes]: what the parsed set contains *)

Lemma truthy_lor (a b : Z) : truthy (Z.lor a b) = truthy a || truthy b.
Proof.
  unfold truthy.
  destruct (Z.eqb_spec (Z.lor a b) 0) as [H|H].
  - apply Z.lor_eq_0_iff in H. destruct H; subst. reflexivity.
  - destruct (Z.eqb_spec a 0), (Z.eqb_spec b 0); try reflexivity.
    subst. exfalso. apply H. reflexivity.
Qed.

Lemma land_pow2 (t k : Z) :
  0 <= k -> Z.land t (2 ^ k) = if Z.testbit t k then 2 ^ k else 0.
Proof.
  intros Hk. apply Z.bits_inj'. intros n Hn.
  rewrite Z.land_spec, Z.pow2_bits_eqb by lia.
  destruct (Z.eqb_spec k n) as [->|Hne].
  - destruct (Z.testbit t n).
    + now rewrite Z.pow2_bits_eqb, Z.eqb_refl by lia.
    + now rewrite Z.bits_0.
  - rewrite andb_false_r. destruct (Z.testbit t k).
    + rewrite Z.pow2_bits_eqb by lia. symmetry. now apply Z.eqb_neq.
    + now rewrite Z.bits_0.
Qed.

Lemma land_flag (t k : Z) :
  0 <= k -> Z.land t (2 ^ k) = if truthy (Z.land t (2 ^ k)) then 2 ^ k else 0.
Proof.
  intros Hk. rewrite land_pow2 by exact Hk.
  destruct (Z.testbit t k); [|reflexivity].
  unfold truthy. destruct (Z.eqb_spec (2 ^ k) 0) as [H|H]; [|reflexivity].
  pose proof (Z.pow_pos_nonneg 2 k ltac:(lia) Hk). lia.
Qed.

Lemma file_type_flag_known (c : ascii) :
  (match file_type_flag c with Some _ => true | None => false end) =
  occurs c file_type_chars.
Proof.
  destruct c as [[] [] [] [] [] [] [] []]; reflexivity.
Qed.

Lemma flag_hit_letters (c : ascii) :
  flag_hit FileTypes.BlockSpecialFile c = Ascii.eqb c "b" /\
  flag_hit FileTypes.CharacterSpecialFile c = Ascii.eqb c "c" /\
  flag_hit FileTypes.Directory c = Ascii.eqb c "d" /\
  flag_hit FileTypes.NamedPipe c = Ascii.eqb c "p" /\
  flag_hit FileTypes.RegularFile c = Ascii.eqb c "f" /\
  flag_hit FileTypes.SymbolicLink c = Ascii.eqb c "l" /\
  flag_hit FileTypes.Socket c = Ascii.eqb c "s".
Proof.
  destruct c as [[] [] [] [] [] [] [] []]; repeat split.
Qed.

Lemma ParseFileTypes_loop_flag (flag : Z) (letter : ascii) :
  (forall c, flag_hit flag c = Ascii.eqb c letter) ->
  forall chars acc t,
    ParseFileTypes_loop chars acc = Some t ->
    truthy (Z.land t flag) = truthy (Z.land acc flag) || occurs letter chars.
Proof.
  intros Hhit. induction chars as [|c rest IH]; intros acc t H.
  - cbn in H. injection H as <-. cbn [occurs]. now rewrite orb_false_r.
  - cbn [ParseFileTypes_loop] in H. specialize (Hhit c). unfold flag_hit in Hhit.
    destruct (file_type_flag c) as [f|]; [|discriminate H].
    rewrite (IH _ _ H), Z.land_lor_distr_l, truthy_lor, Hhit.
    cbn [occurs]. now rewrite orb_assoc.
Qed.

Lemma ParseFileTypes_flag (flag : Z) (letter : ascii) :
  (forall c, flag_hit flag c = Ascii.eqb c letter) ->
  forall chars t,
    ParseFileTypes chars = Some t ->
    truthy (Z.land t flag) = occurs letter chars.
Proof.
  intros Hhit chars t H.
  rewrite (ParseFileTypes_loop_flag flag letter Hhit chars _ t H).
  reflexivity.
Qed.

Lemma ParseFileTypes_loop_mask :
  forall chars acc t,
    ParseFileTypes_loop chars acc = Some t ->
    Z.land acc 127 = acc -> Z.land t 127 = t.
Proof.
  induction chars as [|c rest IH]; intros acc t H Hacc.
  - cbn in H. now injection H as <-.
  - cbn [ParseFileTypes_loop] in H.
    destruct (file_type_flag c) as [f|] eqn:Hf; [|discriminate H].
    apply (IH _ _ H). rewrite Z.land_lor_distr_l, Hacc. f_equal.
    unfold file_type_flag in Hf.
    repeat match type of Hf with
           | (if ?b then _ else _) = _ => destruct b
           end; try discriminate Hf; injection Hf as <-; reflexivity.
Qed.

Lemma ParseFileTypes_mask (chars : string) (t : Z) :
  ParseFileTypes chars = Some t -> Z.land t 127 = t /\ 0 <= t <= 127.
Proof.
  revert chars t.
  intros chars t H.
  assert (Hm : Z.land t 127 = t)
    by (apply (ParseFileTypes_loop_mask chars FileTypes.None t H); reflexivity).
  split; [exact Hm|].
  change 127 with (Z.ones 7) in Hm. rewrite Z.land_ones in Hm by lia.
  pose proof (Z.mod_pos_bound t (2 ^ 7) ltac:(lia)). lia.
Qed.

(** The set [ParseFileTypes] returns has no bit outside the seven flags of
    the enumeration. *)
Theorem ParseFileTypes_range :
  forall chars t,
    ParseFileTypes chars = Some t -> Z.land t 127 = t /\ 0 <= t <= 127.
Proof.
  exact ParseFileTypes_mask.
Qed.

Lemma ParseFileTypes_range_witness :
  ParseFileTypes "fdl" = Some 52 /\ 0 <= 52 <= 127.
Proof.
  assert (H : ParseFileTypes "fdl" = Some 52) by reflexivity.
  split; [exact H|].
  exact (proj2 (ParseFileTypes_range "fdl" 52 H)).
Defined.

(** [ParseFileTypes] returns true exactly for the strings made of the
    characters [b c d p f l s]; the empty string is one of them. *)
Theorem ParseFileTypes_accepts :
  forall chars,
    (exists t, ParseFileTypes chars = Some t) <->
    (forall c, occurs c chars = true -> occurs c file_type_chars = true).
Proof.
  intros chars. unfold ParseFileTypes. generalize FileTypes.None as acc.
  induction chars as [|x rest IH]; intros acc.
  - split; [intros _ c H; discriminate H|intros _; cbn; eauto].
  - cbn [ParseFileTypes_loop occurs].
    pose proof (file_type_flag_known x) as Hx.
    destruct (file_type_flag x) as [f|].
    + rewrite IH. split.
      * intros H c Hc. apply orb_true_iff in Hc. destruct Hc as [Hc|Hc].
        -- apply Ascii.eqb_eq in Hc. subst c. now symmetry.
        -- now apply H.
      * intros H c Hc. apply H. rewrite Hc. apply orb_true_r.
    + split.
      * intros [t Ht]. discriminate Ht.
      * intros H. specialize (H x). rewrite Ascii.eqb_refl in H.
        rewrite <- Hx in H. discriminate (H eq_refl).
Qed.

(** The set depends only on which characters occur: their order and their
    repetitions make no difference. *)
Theorem ParseFileTypes_same_characters :
  forall chars1 chars2 t1 t2,
    ParseFileTypes chars1 = Some t1 ->
    ParseFileTypes chars2 = Some t2 ->
    (forall c, occurs c chars1 = occurs c chars2) ->
    t1 = t2.
Proof.
  intros chars1 chars2 t1 t2 H1 H2 Hsame.
  destruct (ParseFileTypes_mask _ _ H1) as [M1 _].
  destruct (ParseFileTypes_mask _ _ H2) as [M2 _].
  rewrite <- M1, <- M2.
  change 127 with
    (Z.lor (2 ^ 0) (Z.lor (2 ^ 1) (Z.lor (2 ^ 2) (Z.lor (2 ^ 3)
       (Z.lor (2 ^ 4) (Z.lor (2 ^ 5) (2 ^ 6))))))).
  rewrite !Z.land_lor_distr_r.
  assert (Hbit : forall k letter,
             0 <= k ->
             (forall c, flag_hit (2 ^ k) c = Ascii.eqb c letter) ->
             Z.land t1 (2 ^ k) = Z.land t2 (2 ^ k)).
  { intros k letter Hk Hhit.
    rewrite (land_flag t1 k Hk), (land_flag t2 k Hk).
    rewrite (ParseFileTypes_flag _ letter Hhit _ _ H1).
    rewrite (ParseFileTypes_flag _ letter Hhit _ _ H2).
    now rewrite Hsame. }
  rewrite (Hbit 0 "b"%char), (Hbit 1 "c"%char), (Hbit 2 "d"%char),
    (Hbit 3 "p"%char), (Hbit 4 "f"%char), (Hbit 5 "l"%char), (Hbit 6 "s"%char);
    try lia; try reflexivity; intros c; apply (flag_hit_letters c).
Qed.

Lemma ParseFileTypes_same_characters_witness :
  (ParseFileTypes "fd" = Some 20 /\ ParseFileTypes "dffd" = Some 20 /\
   forall c, occurs c "fd" = occurs c "dffd") /\
  20 = 20.
Proof.
  assert (H1 : ParseFileTypes "fd" = Some 20) by reflexivity.
  assert (H2 : ParseFileTypes "dffd" = Some 20) by reflexivity.
  assert (H3 : forall c, occurs c "fd" = occurs c "dffd").
  { intros c. cbn [occurs].
    destruct (Ascii.eqb "f" c), (Ascii.eqb "d" c); reflexivity. }
  split; [repeat split; assumption|].
  exact (ParseFileTypes_same_characters "fd" "dffd" 20 20 H1 H2 H3).
Defined.

(** With the type filter set from a string [ParseFileTypes] accepted, an
    entry is selected exactly when the character of its own file type
    occurs in the string; with the empty string no entry is. *)
Theorem type_filter_selects_listed_types :
  forall chars t filePath fileInfo args,
    ParseFileTypes chars = Some t ->
    filterByFileType args = true ->
    fileTypes args = t ->
    ShouldPrintFileInformation filePath fileInfo args =
      (S_ISBLK (st_mode fileInfo) && occurs "b" chars) ||
      (S_ISCHR (st_mode fileInfo) && occurs "c" chars) ||
      (S_ISDIR (st_mode fileInfo) && occurs "d" chars) ||
      (S_ISFIFO (st_mode fileInfo) && occurs "p" chars) ||
      (S_ISREG (st_mode fileInfo) && occurs "f" chars) ||
      (S_ISLNK (st_mode fileInfo) && occurs "l" chars) ||
      (S_ISSOCK (st_mode fileInfo) && occurs "s" chars).
Proof.
  intros chars t filePath fileInfo args Hp Hflag Ht.
  unfold ShouldPrintFileInformation, file_type_selected. rewrite Hflag, Ht.
  rewrite (ParseFileTypes_flag _ "b" (fun c => proj1 (flag_hit_letters c)) _ _ Hp).
  rewrite (ParseFileTypes_flag _ "c"
             (fun c => proj1 (proj2 (flag_hit_letters c))) _ _ Hp).
  rewrite (ParseFileTypes_flag _ "d"
             (fun c => proj1 (proj2 (proj2 (flag_hit_letters c)))) _ _ Hp).
  rewrite (ParseFileTypes_flag _ "p"
             (fun c => proj1 (proj2 (proj2 (proj2 (flag_hit_letters c))))) _ _ Hp).
  rewrite (ParseFileTypes_flag _ "f"
             (fun c => proj1 (proj2 (proj2 (proj2 (proj2 (flag_hit_letters c))))))
             _ _ Hp).
  rewrite (ParseFileTypes_flag _ "l"
             (fun c => proj1 (proj2 (proj2 (proj2 (proj2 (proj2
                         (flag_hit_letters c))))))) _ _ Hp).
  rewrite (ParseFileTypes_flag _ "s"
             (fun c => proj2 (proj2 (proj2 (proj2 (proj2 (proj2
                         (flag_hit_letters c))))))) _ _ Hp).
  reflexivity.
Qed.

Lemma type_filter_selects_listed_types_witness :
  (ParseFileTypes "d" = Some 4 /\
   filterByFileType (set_fileTypes 4 calloc_Args) = true /\
   fileTypes (set_fileTypes 4 calloc_Args) = 4) /\
  ShouldPrintFileInformation "root/f1" {| st_mode := Z.lor S_IFREG 420; st_uid := 0 |}
    (set_fileTypes 4 calloc_Args) = false.
Proof.
  assert (H1 : ParseFileTypes "d" = Some 4) by reflexivity.
  assert (H2 : filterByFileType (set_fileTypes 4 calloc_Args) = true) by reflexivity.
  assert (H3 : fileTypes (set_fileTypes 4 calloc_Args) = 4) by reflexivity.
  split; [repeat split; assumption|].
  exact (type_filter_selects_listed_types "d" 4 "root/f1"
           {| st_mode := Z.lor S_IFREG 420; st_uid := 0 |}
           (set_fileTypes 4 calloc_Args) H1 H2 H3).
Defined.

(** ** [ParseCommandLineArgs]: what a successful parse leaves in [args] *)

Section ParserInvariant.

Variable ConvertToInteger : string -> option Z.
Variable QueryUserID : string -> option Z.

(** A property of [args] that every assignment of the loop keeps holds at
    the end of a successful parse.  [lo] bounds the index from below, so
    that the assignment of the search path (index 1 only) can be left out. *)
Lemma ParseCommandLineArgs_loop_invariant (P : Args -> Prop) (lo : nat) :
  (forall a, P a -> P (set_printInExtendedFormat a)) ->
  (forall chars t a, ParseFileTypes chars = Some t -> P a -> P (set_fileTypes t a)) ->
  (forall u a, P a -> P (set_userID u a)) ->
  (forall a, P a -> P (set_filterForNoUser a)) ->
  (forall p a, P a -> P (set_namePattern p a)) ->
  (forall p a, P a -> P (set_pathPattern p a)) ->
  ((lo <= 1)%nat -> forall p a, P a -> P (set_searchPath p a)) ->
  forall n rest, (List.length rest <= n)%nat ->
  forall i a args, (lo <= i)%nat -> P a ->
    ParseCommandLineArgs_loop ConvertToInteger QueryUserID i rest a = inr args ->
    P args.
Proof.
  intros Hls Hty Hus Hno Hna Hpa Hsp.
  induction n as [|n IH]; intros rest Hlen i a args Hi Ha H.
  - destruct rest; [|cbn [List.length] in Hlen; lia].
    cbn in H. now injection H as <-.
  - destruct rest as [|arg rest1]; [cbn in H; now injection H as <-|].
    cbn [List.length] in Hlen. cbn [ParseCommandLineArgs_loop] in H.
    destruct (String.eqb arg "-print").
    { apply (IH rest1 ltac:(lia) (S i) a); auto; lia. }
    destruct (String.eqb arg "-ls").
    { apply (IH rest1 ltac:(lia) (S i) (set_printInExtendedFormat a)); auto; lia. }
    destruct (String.eqb arg "-type").
    { destruct rest1 as [|operand rest2]; [discriminate H|].
      cbn [List.length] in Hlen.
      destruct (ParseFileTypes operand) as [t|] eqn:Ht; [|discriminate H].
      apply (IH rest2 ltac:(lia) (S (S i)) (set_fileTypes t a)); eauto; lia. }
    destruct (String.eqb arg "-user").
    { destruct rest1 as [|operand rest2]; [discriminate H|].
      cbn [List.length] in Hlen.
      destruct (ConvertToInteger operand) as [u|].
      - apply (IH rest2 ltac:(lia) (S (S i)) (set_userID u a)); auto; lia.
      - destruct (QueryUserID operand) as [u|]; [|discriminate H].
        apply (IH rest2 ltac:(lia) (S (S i)) (set_userID u a)); auto; lia. }
    destruct (String.eqb arg "-nouser").
    { apply (IH rest1 ltac:(lia) (S i) (set_filterForNoUser a)); auto; lia. }
    destruct (String.eqb arg "-name").
    { destruct rest1 as [|operand rest2]; [discriminate H|].
      cbn [List.length] in Hlen.
      apply (IH rest2 ltac:(lia) (S (S i)) (set_namePattern operand a)); auto; lia. }
    destruct (String.eqb arg "-path").
    { destruct rest1 as [|operand rest2]; [discriminate H|].
      cbn [List.length] in Hlen.
      apply (IH rest2 ltac:(lia) (S (S i)) (set_pathPattern operand a)); auto; lia. }
    destruct (Nat.eqb_spec i 1) as [->|Hne]; [|discriminate H].
    apply (IH rest1 ltac:(lia) 2%nat (set_searchPath arg a)); auto; lia.
Qed.

(** From index 2 on the loop does not touch [searchPath]. *)
Lemma searchPath_kept (rest : list string) (i : nat) (a args : Args) :
  (2 <= i)%nat ->
  ParseCommandLineArgs_loop ConvertToInteger QueryUserID i rest a = inr args ->
  searchPath args = searchPath a.
Proof.
  intros Hi H.
  apply (ParseCommandLineArgs_loop_invariant
           (fun x => searchPath x = searchPath a) 2
           ltac:(auto) ltac:(auto) ltac:(auto) ltac:(auto) ltac:(auto) ltac:(auto)
           ltac:(intros; lia)
           (List.length rest) rest (le_n _) i a args Hi eq_refl H).
Qed.

Lemma searchPath_parsed (argv : list string) (args : Args) :
  ParseCommandLineArgs ConvertToInteger QueryUserID argv calloc_Args = inr args ->
  searchPath args =
    match argv with
    | _ :: arg :: _ => if is_action arg then None else Some arg
    | _ => None
    end.
Proof.
  unfold ParseCommandLineArgs.
  destruct argv as [|exe [|arg rest]]; cbn [tl]; intros H.
  - cbn in H. now injection H as <-.
  - cbn in H. now injection H as <-.
  - destruct (is_action arg) eqn:Hact.
    + unfold is_action in Hact. cbn [ParseCommandLineArgs_loop] in H.
      destruct (String.eqb arg "-print").
      { now rewrite (searchPath_kept _ _ _ _ (le_n 2) H). }
      destruct (String.eqb arg "-ls").
      { now rewrite (searchPath_kept _ _ _ _ (le_n 2) H). }
      destruct (String.eqb arg "-type").
      { destruct rest as [|operand rest2]; [discriminate H|].
        destruct (ParseFileTypes operand); [|discriminate H].
        now rewrite (searchPath_kept _ _ _ _ (le_S _ _ (le_n 2)) H). }
      destruct (String.eqb arg "-user").
      { destruct rest as [|operand rest2]; [discriminate H|].
        destruct (ConvertToInteger operand).
        - now rewrite (searchPath_kept _ _ _ _ (le_S _ _ (le_n 2)) H).
        - destruct (QueryUserID operand); [|discriminate H].
          now rewrite (searchPath_kept _ _ _ _ (le_S _ _ (le_n 2)) H). }
      destruct (String.eqb arg "-nouser").
      { now rewrite (searchPath_kept _ _ _ _ (le_n 2) H). }
      destruct (String.eqb arg "-name").
      { destruct rest as [|operand rest2]; [discriminate H|].
        now rewrite (searchPath_kept _ _ _ _ (le_S _ _ (le_n 2)) H). }
      destruct (String.eqb arg "-path").
      { destruct rest as [|operand rest2]; [discriminate H|].
        now rewrite (searchPath_kept _ _ _ _ (le_S _ _ (le_n 2)) H). }
      discriminate Hact.
    + rewrite loop_not_action in H by exact Hact. cbn [Nat.eqb] in H.
      now rewrite (searchPath_kept _ _ _ _ (le_n 2) H).
Qed.

Lemma loop_fails_after_whole_actions (tail : list string) :
  (forall i args, exists err,
      ParseCommandLineArgs_loop ConvertToInteger QueryUserID i tail args = inl err) ->
  forall actions, whole_actions actions ->
  forall i args, exists err,
    ParseCommandLineArgs_loop ConvertToInteger QueryUserID i
      (actions ++ tail)%list args = inl err.
Proof.
  intros Htail actions Hwa.
  induction Hwa as [|action tl Hflag Hwa IH|action operand tl Hop Hwa IH];
    intros i args.
  - apply Htail.
  - destruct Hflag as [->|[->| ->]]; cbn [app];
      cbn [ParseCommandLineArgs_loop String.eqb Ascii.eqb Bool.eqb andb];
      apply IH.
  - destruct Hop as [->|[->|[->| ->]]]; cbn [app];
      cbn [ParseCommandLineArgs_loop String.eqb Ascii.eqb Bool.eqb andb].
    + destruct (ParseFileTypes operand); [apply IH|eauto].
    + destruct (ConvertToInteger operand); [apply IH|].
      destruct (QueryUserID operand); [apply IH|eauto].
    + apply IH.
    + apply IH.
Qed.

End ParserInvariant.

(** After a successful parse of a command line, starting from the zeroed
    [struct Args], each pattern is there exactly when its flag is set,
    [fileTypes] holds flags of the enumeration only and is [None] unless
    the type filter is set, and [userID] is 0 unless the owner filter is
    set. *)
Theorem parsed_Args_consistent :
  forall (ConvertToInteger QueryUserID : string -> option Z) argv args,
    ParseCommandLineArgs ConvertToInteger QueryUserID argv calloc_Args = inr args ->
    Args_consistent args.
Proof.
  intros ConvertToInteger QueryUserID argv args H.
  unfold ParseCommandLineArgs in H.
  refine (ParseCommandLineArgs_loop_invariant ConvertToInteger QueryUserID
            Args_consistent 0 _ _ _ _ _ _ _
            (List.length (tl argv)) (tl argv) (le_n _) 1%nat calloc_Args args
            (Nat.le_0_l _) _ H);
    unfold Args_consistent; cbn.
  - intros a Ha. exact Ha.
  - intros chars t a Ht Ha.
    destruct (ParseFileTypes_mask chars t Ht) as [_ Hr].
    intuition (try congruence; try lia).
  - intros u a Ha. intuition congruence.
  - intros a Ha. exact Ha.
  - intros p a Ha. intuition congruence.
  - intros p a Ha. intuition congruence.
  - intros _ p a Ha. exact Ha.
  - unfold FileTypes.None. intuition (try congruence; try lia).
Qed.

Lemma parsed_Args_consistent_witness :
  ParseCommandLineArgs numeric_user_id no_account
    ["myfind"; "/tmp"; "-type"; "fd"; "-name"; "*.c"] calloc_Args =
    inr (set_namePattern "*.c" (set_fileTypes 20 (set_searchPath "/tmp" calloc_Args))) /\
  Args_consistent
    (set_namePattern "*.c" (set_fileTypes 20 (set_searchPath "/tmp" calloc_Args))).
Proof.
  assert (H : ParseCommandLineArgs numeric_user_id no_account
                ["myfind"; "/tmp"; "-type"; "fd"; "-name"; "*.c"] calloc_Args =
              inr (set_namePattern "*.c"
                     (set_fileTypes 20 (set_searchPath "/tmp" calloc_Args))))
    by reflexivity.
  split; [exact H|].
  exact (parsed_Args_consistent numeric_user_id no_account _ _ H).
Defined.

(** After a successful parse [searchPath] is the first argument when that
    is not an action word, and NULL otherwise: no later argument is ever
    taken as the search path. *)
Theorem searchPath_is_first_argument :
  forall (ConvertToInteger QueryUserID : string -> option Z) argv args,
    ParseCommandLineArgs ConvertToInteger QueryUserID argv calloc_Args = inr args ->
    searchPath args =
      match argv with
      | _ :: arg :: _ => if is_action arg then None else Some arg
      | _ => None
      end.
Proof.
  intros ConvertToInteger QueryUserID argv args H.
  exact (searchPath_parsed ConvertToInteger QueryUserID argv args H).
Qed.

Lemma searchPath_is_first_argument_witness :
  ParseCommandLineArgs numeric_user_id no_account
    ["myfind"; "-ls"; "-name"; "/tmp"] calloc_Args =
    inr (set_namePattern "/tmp" (set_printInExtendedFormat calloc_Args)) /\
  searchPath (set_namePattern "/tmp" (set_printInExtendedFormat calloc_Args)) = None.
Proof.
  assert (H : ParseCommandLineArgs numeric_user_id no_account
                ["myfind"; "-ls"; "-name"; "/tmp"] calloc_Args =
              inr (set_namePattern "/tmp" (set_printInExtendedFormat calloc_Args)))
    by reflexivity.
  split; [exact H|].
  exact (searchPath_is_first_argument numeric_user_id no_account _ _ H).
Defined.

(** [main] either reports an argument error, prints the usage and returns
    -1 without touching the file system, or returns 0 after the walk, which
    starts at the first argument, or at [.] when there is none or when it is
    an action word. *)
Theorem main_outcomes :
  forall (ConvertToInteger QueryUserID : string -> option Z) argv root,
    (exists err,
       ParseCommandLineArgs ConvertToInteger QueryUserID argv calloc_Args = inl err /\
       main ConvertToInteger QueryUserID argv root = (-1, [StderrArgument err; Usage])) \/
    (exists args tr,
       ParseCommandLineArgs ConvertToInteger QueryUserID argv calloc_Args = inr args /\
       main ConvertToInteger QueryUserID argv root =
         (0, SearchFile (start_path argv) root args) /\
       SearchFile (start_path argv) root args = Lstat (start_path argv) :: tr).
Proof.
  intros ConvertToInteger QueryUserID argv root. unfold main.
  destruct (ParseCommandLineArgs ConvertToInteger QueryUserID argv calloc_Args)
    as [err|args] eqn:H.
  - left. exists err. split; reflexivity.
  - right. rewrite (searchPath_parsed _ _ _ _ H).
    assert (Hs : match
                   match argv with
                   | _ :: arg :: _ => if is_action arg then None else Some arg
                   | _ => None
                   end
                 with
                 | Some p => p
                 | None => "."
                 end = start_path argv).
    { unfold start_path. destruct argv as [|exe [|arg rest]]; try reflexivity.
      destruct (is_action arg); reflexivity. }
    rewrite Hs. destruct root as [info dir].
    eexists. eexists. split; [reflexivity|]. split; reflexivity.
Qed.

(** An action that takes an operand and comes last has none: the parse
    fails with the error for the missing operand, wherever the action
    stands; so does any command line that ends with such an action after
    whole actions. *)
Theorem missing_operand_is_an_error :
  forall (ConvertToInteger QueryUserID : string -> option Z) action,
    In action ["-type"; "-user"; "-name"; "-path"] ->
    (forall i args,
       ParseCommandLineArgs_loop ConvertToInteger QueryUserID i [action] args =
       inl (MissingOperand action)) /\
    (forall exe actions args,
       whole_actions actions ->
       exists err,
         ParseCommandLineArgs ConvertToInteger QueryUserID
           (exe :: actions ++ [action])%list args = inl err).
Proof.
  intros ConvertToInteger QueryUserID action Hin.
  assert (Hlast : forall i args,
             ParseCommandLineArgs_loop ConvertToInteger QueryUserID i [action] args =
             inl (MissingOperand action)).
  { cbn [In] in Hin.
    destruct Hin as [<-|[<-|[<-|[<-|[]]]]]; intros i args; reflexivity. }
  split; [exact Hlast|].
  intros exe actions args Hwa. unfold ParseCommandLineArgs. cbn [tl].
  apply loop_fails_after_whole_actions; [|exact Hwa].
  intros i a. rewrite Hlast. eauto.
Qed.

Lemma missing_operand_is_an_error_witness :
  In "-name" ["-type"; "-user"; "-name"; "-path"] /\
  ParseCommandLineArgs_loop numeric_user_id no_account 2 ["-name"] calloc_Args =
    inl (MissingOperand "-name").
Proof.
  assert (H : In "-name" ["-type"; "-user"; "-name"; "-path"])
    by (right; right; left; reflexivity).
  split; [exact H|].
  exact (proj1 (missing_operand_is_an_error numeric_user_id no_account "-name" H)
           2%nat calloc_Args).
Defined.

(** ** [CombinePath]: the first path is kept, the buffer is large enough *)

Lemma append_nil_r (a : string) : a ++ "" = a.
Proof.
  induction a as [|x a IH]; simpl; [reflexivity|now rewrite IH].
Qed.

Lemma extends_refl (p : string) : extends p p.
Proof.
  exists "". symmetry. apply append_nil_r.
Qed.

Lemma extends_trans (a b c : string) : extends a b -> extends b c -> extends a c.
Proof.
  intros [r1 ->] [r2 ->]. exists (r1 ++ r2). apply append_assoc.
Qed.

Lemma CombinePath_extends_helper :
  forall path1 path2, extends path1 (CombinePath path1 path2).
Proof.
  intros path1 path2.
  destruct path1 as [|x p1]; [exists path2; now destruct path2|].
  destruct path2 as [|y p2]; [apply extends_refl|].
  rewrite CombinePath_nonempty by discriminate.
  destruct (has_trailing_slash (String x p1)) eqn:Ht;
    destruct (has_leading_slash (String y p2)) eqn:Hl; cbn [andb orb].
  - destruct (has_trailing_slash_split _ Ht) as [a Ha].
    destruct (has_leading_slash_split _ Hl) as [b Hb].
    rewrite Ha, Hb, length_append. simpl String.length.
    replace (String.length a + 1 - 1)%nat with (String.length a) by lia.
    rewrite substring_append_prefix. exists b. now rewrite append_assoc.
  - now exists (String y p2).
  - now exists (String y p2).
  - now exists ("/" ++ String y p2).
Qed.

(** The combined path always begins with the first path, character for
    character: when the slash that ends it is dropped, the slash that begins
    the second path takes its place. *)
Theorem CombinePath_extends :
  forall path1 path2, extends path1 (CombinePath path1 path2).
Proof.
  exact CombinePath_extends_helper.
Qed.

(** The combined path, with its terminator, fits the buffer of
    [path1Len + path2Len + 2] bytes that is allocated for it, and it is at
    most one character shorter than the two paths together. *)
Theorem CombinePath_length :
  forall path1 path2,
    (String.length (CombinePath path1 path2) + 1 <=
     String.length path1 + String.length path2 + 2)%nat /\
    (String.length path1 + String.length path2 <=
     String.length (CombinePath path1 path2) + 1)%nat.
Proof.
  intros path1 path2.
  destruct path1 as [|x p1]; [destruct path2; cbn; lia|].
  destruct path2 as [|y p2]; [cbn; lia|].
  rewrite CombinePath_nonempty by discriminate.
  destruct (has_trailing_slash (String x p1)) eqn:Ht;
    destruct (has_leading_slash (String y p2)) eqn:Hl; cbn [andb orb].
  - destruct (has_trailing_slash_split _ Ht) as [a Ha].
    rewrite Ha, !length_append. simpl (String.length "/").
    replace (String.length a + 1 - 1)%nat with (String.length a) by lia.
    rewrite substring_append_prefix. lia.
  - rewrite length_append. lia.
  - rewrite length_append. lia.
  - rewrite !length_append. simpl (String.length "/"). lia.
Qed.

(** ** The walk: what it reads and what it prints *)

Lemma read_directory_events (directoryPath : string) (rd : option Z) :
  forall ents head e,
    In e (fst (read_directory directoryPath ents rd head)) ->
    e = Readdir directoryPath \/
    exists err, rd = Some err /\ e = Stderr (ReadingDirectoryFailed directoryPath err).
Proof.
  induction ents as [|d_name child rest IH]; intros head e Hin.
  - cbn [read_directory fst] in Hin. destruct Hin as [<-|Hin]; [now left|].
    destruct rd as [err|]; [|destruct Hin].
    destruct Hin as [<-|[]]. right. eauto.
  - cbn [read_directory] in Hin.
    specialize (IH (if is_dot d_name then head else AddListNode head (d_name, child)) e).
    destruct (read_directory directoryPath rest rd
                (if is_dot d_name then head else AddListNode head (d_name, child)))
      as [tr head'].
    cbn [fst] in *. destruct Hin as [<-|Hin]; [now left|auto].
Qed.

Lemma read_directory_fst_head (directoryPath : string) (rd : option Z) :
  forall ents head,
    fst (read_directory directoryPath ents rd head) =
    fst (read_directory directoryPath ents rd []).
Proof.
  induction ents as [|d_name child rest IH]; intros head; [reflexivity|].
  cbn [read_directory].
  pose proof (IH (if is_dot d_name then head else AddListNode head (d_name, child))) as H1.
  pose proof (IH (if is_dot d_name then [] else AddListNode [] (d_name, child))) as H2.
  destruct (read_directory directoryPath rest rd
              (if is_dot d_name then head else AddListNode head (d_name, child))).
  destruct (read_directory directoryPath rest rd
              (if is_dot d_name then [] else AddListNode [] (d_name, child))).
  cbn [fst] in *. congruence.
Qed.

Lemma read_directory_snd (directoryPath : string) (rd : option Z) :
  forall (ents : dirents) (head : FileList),
    snd (read_directory directoryPath ents rd head) =
    (head ++ filter (fun node => negb (is_dot (fst node))) (dirents_to_list ents))%list.
Proof.
  induction ents as [|d_name child rest IH]; intros head.
  - cbn. now rewrite app_nil_r.
  - cbn [read_directory].
    specialize (IH (if is_dot d_name then head else AddListNode head (d_name, child))).
    destruct (read_directory directoryPath rest rd
                (if is_dot d_name then head else AddListNode head (d_name, child)))
      as [tr head'].
    cbn [snd] in *. rewrite IH. cbn [dirents_to_list filter fst].
    destruct (is_dot d_name); cbn [negb]; [reflexivity|].
    unfold AddListNode. now rewrite <- app_assoc.
Qed.

Lemma read_directory_reads (directoryPath : string) (rd : option Z) :
  forall (ents : dirents) (head : FileList),
    List.length (filter is_Readdir (fst (read_directory directoryPath ents rd head))) =
    S (List.length (dirents_to_list ents)).
Proof.
  induction ents as [|d_name child rest IH]; intros head.
  - cbn [read_directory fst dirents_to_list List.length].
    destruct rd; reflexivity.
  - cbn [read_directory dirents_to_list List.length].
    specialize (IH (if is_dot d_name then head else AddListNode head (d_name, child))).
    destruct (read_directory directoryPath rest rd
                (if is_dot d_name then head else AddListNode head (d_name, child)))
      as [tr head'].
    cbn [fst] in *. cbn [filter is_Readdir List.length]. now rewrite IH.
Qed.

(** The read loop calls [readdir] once for every entry of the stream and
    once more for its end, and leaves in the list the entries other than
    [.] and [..], in the order they were read. *)
Theorem read_directory_lists_in_read_order :
  forall directoryPath ents rd,
    snd (read_directory directoryPath ents rd []) =
      filter (fun node => negb (is_dot (fst node))) (dirents_to_list ents) /\
    List.length (filter is_Readdir (fst (read_directory directoryPath ents rd []))) =
      S (List.length (dirents_to_list ents)).
Proof.
  intros directoryPath ents rd. split.
  - now rewrite read_directory_snd.
  - apply read_directory_reads.
Qed.

Lemma read_directory_failure (directoryPath : string) (e : Z) :
  forall ents head,
    fst (read_directory directoryPath ents (Some e) head) =
      (fst (read_directory directoryPath ents None head) ++
       [Stderr (ReadingDirectoryFailed directoryPath e)])%list /\
    snd (read_directory directoryPath ents (Some e) head) =
      snd (read_directory directoryPath ents None head).
Proof.
  induction ents as [|d_name child rest IH]; intros head.
  - split; reflexivity.
  - cbn [read_directory].
    specialize (IH (if is_dot d_name then head else AddListNode head (d_name, child))).
    destruct (read_directory directoryPath rest (Some e)
                (if is_dot d_name then head else AddListNode head (d_name, child))).
    destruct (read_directory directoryPath rest None
                (if is_dot d_name then head else AddListNode head (d_name, child))).
    cbn [fst snd] in *. destruct IH as [-> ->]. split; reflexivity.
Qed.

(** When [readdir] fails in the middle of a stream, the one diagnostic is
    written after the reads and before [closedir]; the names read before
    the failure are listed and searched exactly as if the stream had ended
    there. *)
Theorem read_failure_keeps_listed_names :
  forall directoryPath ents e args,
    SearchDirectory directoryPath (Stream ents (Some e) None) args =
      (Opendir directoryPath true ::
       fst (read_directory directoryPath ents None []) ++
       Stderr (ReadingDirectoryFailed directoryPath e) ::
       Closedir directoryPath ::
       SearchFileList directoryPath
         (snd (read_directory directoryPath ents None [])) args)%list.
Proof.
  intros directoryPath ents e args. cbn [SearchDirectory].
  destruct (read_directory_failure directoryPath e ents []) as [-> _].
  rewrite SearchList_FileList. cbn [SearchFileList flat_map app].
  rewrite <- app_assoc. reflexivity.
Qed.

(** When [opendir] fails for a directory, the directory itself has been
    handled like any entry, the one diagnostic is written, nothing below it
    is read, and the loop of the parent goes on with the next name. *)
Theorem opendir_failure_is_local :
  forall directoryPath d_name before after fileInfo e args,
    is_dot d_name = false ->
    S_ISDIR (st_mode fileInfo) = true ->
    SearchList directoryPath
      (dirents_app before (dcons d_name (FsNode (inr fileInfo) (OpenFails e)) after))
      args =
    (SearchList directoryPath before args ++
     Lstat (CombinePath directoryPath d_name) ::
     (if ShouldPrintFileInformation (CombinePath directoryPath d_name) fileInfo args
      then PrintFileInformation (CombinePath directoryPath d_name) fileInfo args
      else []) ++
     [Opendir (CombinePath directoryPath d_name) false;
      Stderr (OpeningDirectoryFailed (CombinePath directoryPath d_name) e)] ++
     SearchList directoryPath after args)%list.
Proof.
  intros directoryPath d_name before after fileInfo e args Hdot Hdir.
  rewrite SearchList_app. cbn [SearchList SearchFile SearchDirectory].
  rewrite Hdot, Hdir. f_equal. cbn [app]. f_equal.
  now rewrite <- !app_assoc.
Qed.

Lemma opendir_failure_is_local_witness :
  (is_dot "locked" = false /\ S_ISDIR (Z.lor S_IFDIR 448) = true) /\
  SearchList "root"
    (dirents_app dnil
       (dcons "locked" (FsNode (inr {| st_mode := Z.lor S_IFDIR 448; st_uid := 0 |})
                          (OpenFails 13))
          (dcons "f1" (regular_file 0) dnil))) calloc_Args =
  [Lstat "root/locked"; Stdout ("root/locked" ++ newline);
   Opendir "root/locked" false; Stderr (OpeningDirectoryFailed "root/locked" 13);
   Lstat "root/f1"; Stdout ("root/f1" ++ newline)].
Proof.
  assert (H1 : is_dot "locked" = false) by reflexivity.
  assert (H2 : S_ISDIR (st_mode {| st_mode := Z.lor S_IFDIR 448; st_uid := 0 |}) = true)
    by reflexivity.
  split; [split; [exact H1|exact H2]|].
  exact (opendir_failure_is_local "root" "locked" dnil
           (dcons "f1" (regular_file 0) dnil)
           {| st_mode := Z.lor S_IFDIR 448; st_uid := 0 |} 13 calloc_Args H1 H2).
Defined.

(** ** The walk: where it goes *)

Lemma event_below_trans (a b : string) (e : event) :
  extends a b -> event_below b e -> event_below a e.
Proof.
  intros Hab. destruct e as [p|p o|p|p|line|d|err|]; cbn [event_below];
    try (apply extends_trans; exact Hab); try tauto.
  intros (p & Hl & Hp). exists p. split; [exact Hl|].
  now apply (extends_trans a b p).
Qed.

Lemma SearchFile_below :
  (forall n filePath args e,
     In e (SearchFile filePath n args) -> event_below filePath e) /\
  (forall dir directoryPath args e,
     In e (SearchDirectory directoryPath dir args) -> event_below directoryPath e) /\
  (forall ents directoryPath args e,
     In e (SearchList directoryPath ents args) -> event_below directoryPath e).
Proof.
  apply fs_mutind.
  - intros info dir IH filePath args e Hin. cbn [SearchFile] in Hin.
    destruct Hin as [<-|Hin]; [apply extends_refl|].
    destruct info as [err|fileInfo].
    + destruct Hin as [<-|[]]. apply extends_refl.
    + apply in_app_or in Hin. destruct Hin as [Hin|Hin].
      * destruct (ShouldPrintFileInformation filePath fileInfo args); [|destruct Hin].
        apply PrintFileInformation_prints in Hin. subst e.
        exists filePath. split; [reflexivity|apply extends_refl].
      * destruct (S_ISDIR (st_mode fileInfo)); [now apply (IH _ args)|destruct Hin].
  - intros err directoryPath args e Hin. cbn [SearchDirectory] in Hin.
    destruct Hin as [<-|[<-|[]]]; apply extends_refl.
  - intros ents IH rd cl directoryPath args e Hin. cbn [SearchDirectory] in Hin.
    destruct Hin as [<-|Hin]; [apply extends_refl|].
    apply in_app_or in Hin. destruct Hin as [Hin|Hin].
    + apply read_directory_events in Hin.
      destruct Hin as [->|(err & _ & ->)]; apply extends_refl.
    + destruct Hin as [<-|Hin]; [apply extends_refl|].
      destruct cl as [err|]; [|now apply (IH _ args)].
      destruct Hin as [<-|[]]. apply extends_refl.
  - intros directoryPath args e [].
  - intros d_name child IHc rest IHr directoryPath args e Hin. cbn [SearchList] in Hin.
    destruct (is_dot d_name); [now apply (IHr _ args)|].
    apply in_app_or in Hin. destruct Hin as [Hin|Hin]; [|now apply (IHr _ args)].
    apply (event_below_trans _ (CombinePath directoryPath d_name)).
    + apply CombinePath_extends_helper.
    + now apply (IHc _ args).
Qed.

(** Every path the walk inspects, opens, reads, closes, prints or reports
    begins with the path the walk was started at. *)
Theorem walk_stays_below_start :
  forall filePath n args e,
    In e (SearchFile filePath n args) -> event_below filePath e.
Proof.
  intros filePath n args e. apply (proj1 SearchFile_below).
Qed.

Lemma walk_stays_below_start_witness :
  In (Lstat "root/sub/f2") (SearchFile "root" sample_tree calloc_Args) /\
  event_below "root" (Lstat "root/sub/f2").
Proof.
  assert (H : In (Lstat "root/sub/f2") (SearchFile "root" sample_tree calloc_Args))
    by (cbv; tauto).
  split; [exact H|].
  exact (walk_stays_below_start "root" sample_tree calloc_Args _ H).
Defined.

(** ** The walk: what the options change *)

Lemma without_stdout_app (a b : list event) :
  without_stdout (a ++ b) = (without_stdout a ++ without_stdout b)%list.
Proof.
  apply filter_app.
Qed.

Lemma without_stdout_print (filePath : string) (fileInfo : stat) (args : Args) :
  without_stdout
    (if ShouldPrintFileInformation filePath fileInfo args
     then PrintFileInformation filePath fileInfo args else []) = [].
Proof.
  unfold PrintFileInformation.
  destruct (ShouldPrintFileInformation filePath fileInfo args),
    (printInExtendedFormat args); reflexivity.
Qed.

Lemma without_stdout_cons (e : event) (tr : list event) :
  is_Stdout e = false -> without_stdout (e :: tr) = e :: without_stdout tr.
Proof.
  intros H. unfold without_stdout. cbn [filter]. now rewrite H.
Qed.

Lemma SearchFile_without_stdout (args1 args2 : Args) :
  (forall n filePath,
     without_stdout (SearchFile filePath n args1) =
     without_stdout (SearchFile filePath n args2)) /\
  (forall dir directoryPath,
     without_stdout (SearchDirectory directoryPath dir args1) =
     without_stdout (SearchDirectory directoryPath dir args2)) /\
  (forall ents directoryPath,
     without_stdout (SearchList directoryPath ents args1) =
     without_stdout (SearchList directoryPath ents args2)).
Proof.
  apply fs_mutind.
  - intros info dir IH filePath. cbn [SearchFile].
    rewrite !without_stdout_cons by reflexivity. f_equal.
    destruct info as [err|fileInfo]; [reflexivity|].
    rewrite !without_stdout_app, !without_stdout_print. cbn [app].
    destruct (S_ISDIR (st_mode fileInfo)); [apply IH|reflexivity].
  - reflexivity.
  - intros ents IH rd cl directoryPath. cbn [SearchDirectory].
    rewrite !without_stdout_cons by reflexivity. f_equal.
    rewrite !without_stdout_app. f_equal.
    rewrite !without_stdout_cons by reflexivity. f_equal.
    destruct cl; [reflexivity|apply IH].
  - reflexivity.
  - intros d_name child IHc rest IHr directoryPath. cbn [SearchList].
    destruct (is_dot d_name); [apply IHr|].
    rewrite !without_stdout_app. now rewrite IHc, IHr.
Qed.

(** The options decide what is printed and nothing else: apart from the
    lines on [stdout], two walks of the same tree make the same calls and
    write the same diagnostics in the same order, whatever their options. *)
Theorem options_do_not_change_the_walk :
  forall filePath n args1 args2,
    without_stdout (SearchFile filePath n args1) =
    without_stdout (SearchFile filePath n args2).
Proof.
  intros filePath n args1 args2.
  apply (proj1 (SearchFile_without_stdout args1 args2)).
Qed.

Lemma stdout_lines_app (a b : list event) :
  stdout_lines (a ++ b) = (stdout_lines a ++ stdout_lines b)%list.
Proof.
  induction a as [|e a IH]; [reflexivity|].
  destruct e; cbn [app stdout_lines]; now rewrite ?IH.
Qed.

Lemma stdout_lines_read_directory (directoryPath : string) (rd : option Z)
  (ents : dirents) (head : FileList) :
  stdout_lines (fst (read_directory directoryPath ents rd head)) = [].
Proof.
  pose proof (read_directory_events directoryPath rd ents head) as H.
  induction (fst (read_directory directoryPath ents rd head)) as [|e tr IH];
    [reflexivity|].
  destruct (H e (or_introl eq_refl)) as [->|(err & _ & ->)]; cbn [stdout_lines];
    apply IH; intros e' He'; apply H; now right.
Qed.

(** A configuration under which no entry yields a line prints nothing in
    the whole walk. *)
Lemma SearchFile_silent (args : Args) :
  (forall filePath fileInfo,
     (if ShouldPrintFileInformation filePath fileInfo args
      then PrintFileInformation filePath fileInfo args else []) = []) ->
  (forall n filePath, stdout_lines (SearchFile filePath n args) = []) /\
  (forall dir directoryPath, stdout_lines (SearchDirectory directoryPath dir args) = []) /\
  (forall ents directoryPath, stdout_lines (SearchList directoryPath ents args) = []).
Proof.
  intros Hsilent. apply fs_mutind.
  - intros info dir IH filePath. cbn [SearchFile stdout_lines].
    destruct info as [err|fileInfo]; [reflexivity|].
    rewrite stdout_lines_app, Hsilent. cbn [stdout_lines app].
    destruct (S_ISDIR (st_mode fileInfo)); [apply IH|reflexivity].
  - reflexivity.
  - intros ents IH rd cl directoryPath. cbn [SearchDirectory stdout_lines].
    rewrite stdout_lines_app, stdout_lines_read_directory. cbn [app stdout_lines].
    destruct cl; [reflexivity|apply IH].
  - reflexivity.
  - intros d_name child IHc rest IHr directoryPath. cbn [SearchList].
    destruct (is_dot d_name); [apply IHr|].
    now rewrite stdout_lines_app, IHc, IHr.
Qed.

(** With [-ls] the walk prints nothing at all: the extended format is not
    written yet, and the simple line is not printed in its place. *)
Theorem extended_format_prints_nothing :
  forall filePath n args,
    printInExtendedFormat args = true ->
    stdout_lines (SearchFile filePath n args) = [].
Proof.
  intros filePath n args Hls.
  refine (proj1 (SearchFile_silent args _) n filePath).
  intros p st. unfold PrintFileInformation. rewrite Hls.
  now destruct (ShouldPrintFileInformation p st args).
Qed.

Lemma extended_format_prints_nothing_witness :
  printInExtendedFormat (set_printInExtendedFormat calloc_Args) = true /\
  stdout_lines (SearchFile "root" sample_tree (set_printInExtendedFormat calloc_Args)) = [].
Proof.
  assert (H : printInExtendedFormat (set_printInExtendedFormat calloc_Args) = true)
    by reflexivity.
  split; [exact H|].
  exact (extended_format_prints_nothing "root" sample_tree _ H).
Defined.

(** When neither the type filter nor the owner-ID filter is set and one of
    [-nouser], [-name] and [-path] is, the walk prints nothing at all,
    whatever the tree and the patterns are. *)
Theorem unfinished_filters_print_nothing :
  forall filePath n args,
    filterByFileType args = false ->
    filterByUserID args = false ->
    filterForNoUser args = true \/ filterForNamePattern args = true \/
    filterForPathPattern args = true ->
    stdout_lines (SearchFile filePath n args) = [].
Proof.
  intros filePath n args Ht Hu Hany.
  refine (proj1 (SearchFile_silent args _) n filePath).
  intros p st. unfold ShouldPrintFileInformation. rewrite Ht, Hu.
  destruct (filterForNoUser args); [reflexivity|].
  destruct (filterForNamePattern args); [reflexivity|].
  destruct (filterForPathPattern args); [reflexivity|].
  destruct Hany as [H|[H|H]]; discriminate H.
Qed.

Lemma unfinished_filters_print_nothing_witness :
  (filterByFileType (set_pathPattern "*" calloc_Args) = false /\
   filterByUserID (set_pathPattern "*" calloc_Args) = false /\
   filterForPathPattern (set_pathPattern "*" calloc_Args) = true) /\
  stdout_lines (SearchFile "root" sample_tree (set_pathPattern "*" calloc_Args)) = [].
Proof.
  assert (H1 : filterByFileType (set_pathPattern "*" calloc_Args) = false)
    by reflexivity.
  assert (H2 : filterByUserID (set_pathPattern "*" calloc_Args) = false)
    by reflexivity.
  assert (H3 : filterForPathPattern (set_pathPattern "*" calloc_Args) = true)
    by reflexivity.
  split; [repeat split; assumption|].
  exact (unfinished_filters_print_nothing "root" sample_tree _ H1 H2
           (or_intror (or_intror H3))).
Defined.

(** Every stream the walk opens has been given to [closedir] by the time
    the walk returns, also when [readdir] or [closedir] report errors. *)
Theorem walk_closes_every_stream :
  forall filePath n args, open_handles (SearchFile filePath n args) = 0.
Proof.
  intros filePath n args.
  exact (proj1 (proj1 SearchFile_balanced n filePath args)).
Qed.

(** ** Diagnostics only on failure *)

Lemma Forall_filter_nil {A : Type} (f : A -> bool) (l : list A) :
  (forall x, In x l -> f x = false) -> filter f l = [].
Proof.
  induction l as [|x l IH]; intros H; [reflexivity|].
  cbn [filter]. rewrite (H x (or_introl eq_refl)). apply IH.
  intros y Hy. apply H. now right.
Qed.

(** ** The drafts and the final program *)

Lemma SecondDraft_walk (parms : list string) :
  (forall n file_name,
     SecondDraft.do_file file_name n parms = SearchFile file_name n calloc_Args) /\
  (forall dir dir_name,
     SecondDraft.do_dir dir_name dir parms = SearchDirectory dir_name dir calloc_Args) /\
  (forall ents dir_name,
     SecondDraft.do_list dir_name ents parms = SearchList dir_name ents calloc_Args).
Proof.
  apply fs_mutind.
  - intros info dir IH file_name. cbn [SecondDraft.do_file SearchFile].
    destruct info as [err|fileInfo]; [reflexivity|].
    change (ShouldPrintFileInformation file_name fileInfo calloc_Args) with true.
    cbv iota. f_equal. f_equal.
    destruct (S_ISDIR (st_mode fileInfo)); [apply IH|reflexivity].
  - reflexivity.
  - intros ents IH rd cl dir_name. cbn [SecondDraft.do_dir SearchDirectory].
    destruct cl; [reflexivity|now rewrite IH].
  - reflexivity.
  - intros d_name child IHc rest IHr dir_name. cbn [SecondDraft.do_list SearchList].
    now rewrite IHc, IHr.
Qed.

Lemma SearchFile_set_searchPath (p : string) (args : Args) :
  (forall n filePath,
     SearchFile filePath n (set_searchPath p args) = SearchFile filePath n args) /\
  (forall dir directoryPath,
     SearchDirectory directoryPath dir (set_searchPath p args) =
     SearchDirectory directoryPath dir args) /\
  (forall ents directoryPath,
     SearchList directoryPath ents (set_searchPath p args) =
     SearchList directoryPath ents args).
Proof.
  apply fs_mutind.
  - intros info dir IH filePath. cbn [SearchFile].
    destruct info as [err|fileInfo]; [reflexivity|].
    change (ShouldPrintFileInformation filePath fileInfo (set_searchPath p args))
      with (ShouldPrintFileInformation filePath fileInfo args).
    change (PrintFileInformation filePath fileInfo (set_searchPath p args))
      with (PrintFileInformation filePath fileInfo args).
    now rewrite IH.
  - reflexivity.
  - intros ents IH rd cl directoryPath. cbn [SearchDirectory]. now rewrite IH.
  - reflexivity.
  - intros d_name child IHc rest IHr directoryPath. cbn [SearchList].
    now rewrite IHc, IHr.
Qed.

(** The second draft, which ignores its options, walks and prints exactly
    as the final program does with no option given; and for a command line
    with no action (no argument, or the search path alone) the two [main]
    functions return the same status after the same trace. *)
Theorem second_draft_is_final_without_options :
  (forall file_name n parms,
     SecondDraft.do_file file_name n parms = SearchFile file_name n calloc_Args) /\
  (forall (ConvertToInteger QueryUserID : string -> option Z) exe root,
     main ConvertToInteger QueryUserID [exe] root = SecondDraft.main [exe] root) /\
  (forall (ConvertToInteger QueryUserID : string -> option Z) exe path root,
     is_action path = false ->
     main ConvertToInteger QueryUserID [exe; path] root =
     SecondDraft.main [exe; path] root).
Proof.
  split; [|split].
  - intros file_name n parms. apply (proj1 (SecondDraft_walk parms)).
  - intros ConvertToInteger QueryUserID exe root.
    unfold main, SecondDraft.main. cbn.
    now rewrite (proj1 (SecondDraft_walk [exe])).
  - intros ConvertToInteger QueryUserID exe path root Hpath.
    unfold main, SecondDraft.main, ParseCommandLineArgs. cbn [tl].
    rewrite loop_not_action by exact Hpath.
    cbn [Nat.eqb ParseCommandLineArgs_loop searchPath set_searchPath].
    rewrite (proj1 (SecondDraft_walk [exe; path])).
    now rewrite (proj1 (SearchFile_set_searchPath path calloc_Args)).
Qed.

Lemma second_draft_is_final_without_options_witness :
  is_action "/tmp" = false /\
  main numeric_user_id no_account ["myfind"; "/tmp"] sample_tree =
  SecondDraft.main ["myfind"; "/tmp"] sample_tree.
Proof.
  assert (H : is_action "/tmp" = false) by reflexivity.
  split; [exact H|].
  exact (proj2 (proj2 second_draft_is_final_without_options)
           numeric_user_id no_account "myfind" "/tmp" sample_tree H).
Defined.

Lemma observed_app (a b : list event) :
  observed (a ++ b) = (observed a ++ observed b)%list.
Proof.
  apply filter_app.
Qed.

Lemma observed_read_directory (directoryPath : string) (rd : option Z)
  (ents : dirents) (head : FileList) :
  observed (fst (read_directory directoryPath ents rd head)) = [].
Proof.
  apply Forall_filter_nil. intros e He. apply read_directory_events in He.
  destruct He as [->|(err & _ & ->)]; reflexivity.
Qed.

Lemma observed_skip (e : event) (tr : list event) :
  is_Lstat e || is_Stdout e = false -> observed (e :: tr) = observed tr.
Proof.
  intros H. unfold observed. cbn [filter]. now rewrite H.
Qed.

Lemma observed_keep (e : event) (tr : list event) :
  is_Lstat e || is_Stdout e = true -> observed (e :: tr) = e :: observed tr.
Proof.
  intros H. unfold observed. cbn [filter]. now rewrite H.
Qed.

Lemma do_file_observed :
  (forall n file_name,
     closes n = true ->
     observed (do_file file_name n) = observed (SearchFile file_name n calloc_Args)) /\
  (forall dir dir_name,
     closes_dir dir = true ->
     observed (do_dir dir_name dir) = observed (SearchDirectory dir_name dir calloc_Args)) /\
  (forall ents dir_name,
     closes_ents ents = true ->
     forall rd,
       observed (do_dir_loop dir_name ents rd) =
       observed (SearchList dir_name ents calloc_Args)).
Proof.
  apply fs_mutind.
  - intros info dir IH file_name H. cbn [closes] in H. cbn [do_file SearchFile].
    destruct info as [err|fileInfo]; [reflexivity|].
    change (ShouldPrintFileInformation file_name fileInfo calloc_Args) with true.
    cbv iota.
    change (PrintFileInformation file_name fileInfo calloc_Args)
      with [Stdout (file_name ++ newline)].
    cbn [app]. rewrite !observed_keep by reflexivity. do 2 f_equal.
    destruct (S_ISDIR (st_mode fileInfo)); [now apply IH|reflexivity].
  - reflexivity.
  - intros ents IH rd cl dir_name H. cbn [closes_dir] in H.
    destruct cl; [discriminate H|]. cbn [do_dir SearchDirectory].
    rewrite !observed_skip by reflexivity.
    rewrite !observed_app, observed_read_directory. cbn [app].
    rewrite !observed_skip by reflexivity.
    rewrite (IH dir_name H rd). apply app_nil_r.
  - intros dir_name _ rd. cbn [do_dir_loop SearchList].
    destruct rd; reflexivity.
  - intros d_name child IHc rest IHr dir_name H rd. cbn [closes_ents] in H.
    apply andb_true_iff in H. destruct H as [Hc Hr].
    cbn [do_dir_loop SearchList].
    rewrite observed_skip by reflexivity.
    rewrite observed_app, (IHr dir_name Hr rd).
    destruct (is_dot d_name); [reflexivity|].
    now rewrite observed_app, IHc.
Qed.

(** ** The first draft: one open stream for every level *)

Lemma bounded_nonneg (k : Z) (tr : list event) : bounded k tr -> 0 <= k.
Proof.
  intros [_ H]. specialize (H [] tr eq_refl). cbn in H. lia.
Qed.

Lemma bounded_nil (k : Z) : 0 <= k -> bounded k [].
Proof.
  intros Hk. split; [reflexivity|].
  intros pre post H. symmetry in H. apply app_eq_nil in H. destruct H; subst.
  cbn. lia.
Qed.

Lemma bounded_mono (k k' : Z) (tr : list event) :
  k <= k' -> bounded k tr -> bounded k' tr.
Proof.
  intros Hk [H0 H]. split; [exact H0|].
  intros pre post Heq. specialize (H pre post Heq). lia.
Qed.

Lemma bounded_app (k : Z) (a b : list event) :
  bounded k a -> bounded k b -> bounded k (a ++ b).
Proof.
  intros [Ha0 Ha] [Hb0 Hb]. split.
  - rewrite open_handles_app. lia.
  - intros pre post H. apply app_eq_app in H.
    destruct H as [l [[H1 H2]|[H1 H2]]].
    + exact (Ha pre l H1).
    + subst pre. rewrite open_handles_app, Ha0. exact (Hb l post H2).
Qed.

Lemma bounded_single (k : Z) (e : event) :
  0 <= k -> handle_delta e = 0 -> bounded k [e].
Proof.
  intros Hk He. split; [cbn [open_handles]; lia|].
  intros pre post H. destruct pre as [|x pre]; [cbn; lia|].
  cbn [app] in H. injection H as Hx H. subst x.
  symmetry in H. apply app_eq_nil in H. destruct H; subst.
  cbn [open_handles]. lia.
Qed.

Lemma bounded_cons (k : Z) (e : event) (tr : list event) :
  handle_delta e = 0 -> bounded k tr -> bounded k (e :: tr).
Proof.
  intros He Htr. change (e :: tr) with ([e] ++ tr)%list.
  apply bounded_app; [|exact Htr].
  apply bounded_single; [exact (bounded_nonneg _ _ Htr)|exact He].
Qed.

(** A stream that stays open around a trace adds one to what it holds. *)
Lemma bounded_wrap (k : Z) (dir_name : string) (inner tail : list event) :
  bounded k inner -> bounded 0 tail ->
  bounded (1 + k) (Opendir dir_name true :: inner ++ Closedir dir_name :: tail).
Proof.
  intros Hin Htail. pose proof (bounded_nonneg _ _ Hin) as Hk.
  destruct Hin as [Hi0 Hi]. destruct Htail as [Ht0 Ht]. split.
  - cbn [open_handles handle_delta]. rewrite open_handles_app.
    cbn [open_handles handle_delta]. lia.
  - intros pre post H. destruct pre as [|x pre]; [cbn [open_handles]; lia|].
    cbn [app] in H. injection H as Hx H. subst x.
    cbn [open_handles handle_delta].
    apply app_eq_app in H. destruct H as [l [[H1 H2]|[H1 H2]]].
    + specialize (Hi pre l H1). lia.
    + subst pre. rewrite open_handles_app, Hi0.
      destruct l as [|y l]; [cbn [open_handles]; lia|].
      cbn [app] in H2. injection H2 as Hy H2. subst y.
      specialize (Ht l post H2). cbn [open_handles handle_delta]. lia.
Qed.

Lemma height_nonneg :
  (forall n, 0 <= height n) /\
  (forall dir, 0 <= height_dir dir) /\
  (forall ents, 0 <= height_ents ents).
Proof.
  apply fs_mutind; intros; cbn [height height_dir height_ents]; lia.
Qed.

Lemma do_file_bounded :
  (forall n file_name, bounded (height n) (do_file file_name n)) /\
  (forall dir dir_name, bounded (height_dir dir) (do_dir dir_name dir)) /\
  (forall ents dir_name rd,
     bounded (height_ents ents) (do_dir_loop dir_name ents rd)).
Proof.
  destruct height_nonneg as (Hn & Hd & He).
  apply fs_mutind.
  - intros info dir IH file_name. cbn [height do_file].
    apply bounded_cons; [reflexivity|].
    destruct info as [err|fileInfo].
    + apply bounded_single; [apply Hd|reflexivity].
    + apply bounded_cons; [reflexivity|].
      destruct (S_ISDIR (st_mode fileInfo)); [apply IH|apply bounded_nil, Hd].
  - intros err dir_name. cbn [height_dir do_dir].
    apply bounded_cons; [reflexivity|]. apply bounded_single; [lia|reflexivity].
  - intros ents IH rd cl dir_name. cbn [height_dir do_dir].
    apply bounded_wrap; [apply IH|].
    destruct cl; [apply bounded_single; [lia|reflexivity]|apply bounded_nil; lia].
  - intros dir_name rd. cbn [height_ents do_dir_loop].
    apply bounded_cons; [reflexivity|].
    destruct rd; [apply bounded_single; [lia|reflexivity]|apply bounded_nil; lia].
  - intros d_name child IHc rest IHr dir_name rd. cbn [height_ents do_dir_loop].
    apply bounded_cons; [reflexivity|]. apply bounded_app.
    + destruct (is_dot d_name).
      * apply bounded_nil. specialize (Hn child). specialize (He rest). lia.
      * apply (bounded_mono (height child)); [lia|apply IHc].
    + apply (bounded_mono (height_ents rest)); [lia|apply IHr].
Qed.


(** ** [CombinePath]: the second path is kept *)

(** The combined path always ends with the second path, character for
    character: a name read from a directory is never altered by the join. *)
Theorem CombinePath_ends_with_path2 :
  forall path1 path2, exists front, CombinePath path1 path2 = front ++ path2.
Proof.
  intros path1 path2.
  destruct path1 as [|x p1]; [exists ""; now destruct path2|].
  destruct path2 as [|y p2].
  - exists (String x p1). symmetry. apply append_nil_r.
  - rewrite CombinePath_nonempty by discriminate.
    destruct (has_trailing_slash (String x p1) && has_leading_slash (String y p2));
      [eexists; reflexivity|].
    destruct (has_trailing_slash (String x p1) || has_leading_slash (String y p2));
      [eexists; reflexivity|].
    exists (String x p1 ++ "/"). now rewrite append_assoc.
Qed.

(** ** [ParseCommandLineArgs]: the index matters at the first argument only *)

Lemma loop_index_free (ConvertToInteger QueryUserID : string -> option Z) :
  forall n rest, (List.length rest <= n)%nat ->
  forall i j a args, (2 <= i)%nat -> (2 <= j)%nat ->
    ParseCommandLineArgs_loop ConvertToInteger QueryUserID i rest a = inr args ->
    ParseCommandLineArgs_loop ConvertToInteger QueryUserID j rest a = inr args.
Proof.
  induction n as [|n IH]; intros rest Hlen i j a args Hi Hj H.
  - destruct rest; [exact H|cbn [List.length] in Hlen; lia].
  - destruct rest as [|arg rest1]; [exact H|].
    cbn [List.length] in Hlen. cbn [ParseCommandLineArgs_loop] in H |- *.
    destruct (String.eqb arg "-print").
    { apply (IH rest1 ltac:(lia) (S i)); auto; lia. }
    destruct (String.eqb arg "-ls").
    { apply (IH rest1 ltac:(lia) (S i)); auto; lia. }
    destruct (String.eqb arg "-type").
    { destruct rest1 as [|operand rest2]; [discriminate H|].
      cbn [List.length] in Hlen.
      destruct (ParseFileTypes operand); [|discriminate H].
      apply (IH rest2 ltac:(lia) (S (S i))); auto; lia. }
    destruct (String.eqb arg "-user").
    { destruct rest1 as [|operand rest2]; [discriminate H|].
      cbn [List.length] in Hlen.
      destruct (ConvertToInteger operand).
      - apply (IH rest2 ltac:(lia) (S (S i))); auto; lia.
      - destruct (QueryUserID operand); [|discriminate H].
        apply (IH rest2 ltac:(lia) (S (S i))); auto; lia. }
    destruct (String.eqb arg "-nouser").
    { apply (IH rest1 ltac:(lia) (S i)); auto; lia. }
    destruct (String.eqb arg "-name").
    { destruct rest1 as [|operand rest2]; [discriminate H|].
      cbn [List.length] in Hlen.
      apply (IH rest2 ltac:(lia) (S (S i))); auto; lia. }
    destruct (String.eqb arg "-path").
    { destruct rest1 as [|operand rest2]; [discriminate H|].
      cbn [List.length] in Hlen.
      apply (IH rest2 ltac:(lia) (S (S i))); auto; lia. }
    destruct (Nat.eqb_spec i 1) as [->|_]; [lia|discriminate H].
Qed.

(** From the second argument on, [-print] changes nothing: the arguments
    with a [-print] in front are parsed successfully exactly when they are
    without it, and into the same options. *)
Theorem print_action_is_ignored :
  forall (ConvertToInteger QueryUserID : string -> option Z) i rest a args,
    (2 <= i)%nat ->
    (ParseCommandLineArgs_loop ConvertToInteger QueryUserID i ("-print" :: rest) a =
       inr args <->
     ParseCommandLineArgs_loop ConvertToInteger QueryUserID i rest a = inr args).
Proof.
  intros ConvertToInteger QueryUserID i rest a args Hi.
  cbn [ParseCommandLineArgs_loop String.eqb Ascii.eqb Bool.eqb andb].
  split; intros H.
  - apply (loop_index_free ConvertToInteger QueryUserID
             (List.length rest) rest (le_n _) (S i) i a args); auto; lia.
  - apply (loop_index_free ConvertToInteger QueryUserID
             (List.length rest) rest (le_n _) i (S i) a args); auto; lia.
Qed.

Lemma print_action_is_ignored_witness :
  (2 <= 2)%nat /\
  (ParseCommandLineArgs_loop numeric_user_id no_account 2
     ["-print"; "-type"; "f"] calloc_Args = inr (set_fileTypes 16 calloc_Args) <->
   ParseCommandLineArgs_loop numeric_user_id no_account 2
     ["-type"; "f"] calloc_Args = inr (set_fileTypes 16 calloc_Args)).
Proof.
  assert (H : (2 <= 2)%nat) by lia.
  split; [exact H|].
  exact (print_action_is_ignored numeric_user_id no_account 2
           ["-type"; "f"] calloc_Args (set_fileTypes 16 calloc_Args) H).
Defined.


Lemma ParseFileTypes_accepts_witness :
  (forall c, occurs c "fd" = true -> occurs c file_type_chars = true) /\
  exists t, ParseFileTypes "fd" = Some t.
Proof.
  assert (H : forall c, occurs c "fd" = true -> occurs c file_type_chars = true).
  { intros c Hc. cbn [occurs] in Hc.
    destruct (Ascii.eqb "f" c) eqn:Ef;
      [apply Ascii.eqb_eq in Ef; subst c; reflexivity|].
    destruct (Ascii.eqb "d" c) eqn:Ed;
      [apply Ascii.eqb_eq in Ed; subst c; reflexivity|discriminate Hc]. }
  split; [exact H|].
  exact (proj2 (ParseFileTypes_accepts "fd") H).
Defined.

(** ** Descent *)

Lemma SearchList_searches_each (directoryPath : string) (args : Args) :
  forall ents d_name child,
    In (d_name, child) (dirents_to_list ents) ->
    is_dot d_name = false ->
    exists pre post,
      SearchList directoryPath ents args =
      (pre ++ SearchFile (CombinePath directoryPath d_name) child args ++ post)%list.
Proof.
  induction ents as [|x c rest IH]; intros d_name child Hin Hdot.
  - destruct Hin.
  - cbn [dirents_to_list] in Hin. cbn [SearchList]. destruct Hin as [Heq|Hin].
    + injection Heq as -> ->. rewrite Hdot.
      exists [], (SearchList directoryPath rest args). reflexivity.
    + destruct (IH d_name child Hin Hdot) as (pre & post & Heq). rewrite Heq.
      destruct (is_dot x).
      * exists pre, post. reflexivity.
      * exists (SearchFile (CombinePath directoryPath x) c args ++ pre)%list, post.
        now rewrite <- app_assoc.
Qed.

(** C6.  After a successful [lstat], [SearchFile] opens the path as a
    directory exactly when the mode [lstat] returned is that of a
    directory, whatever [ShouldPrintFileInformation] answers.  A directory
    is searched whether it is printed or not: when its stream opens and
    closes, every name read from it, [.] and [..] apart, is searched in
    full, in the order of the list, and the trace of each of these searches
    is part of the trace.  A symbolic link is not a directory for [lstat],
    so nothing is opened for it and no further node is inspected, whatever
    the link points to. *)
Theorem SearchFile_descends_iff_directory :
  forall filePath fileInfo dir args,
    let tr := SearchFile filePath (FsNode (inr fileInfo) dir) args in
    (S_ISDIR (st_mode fileInfo) = true <->
     exists opened, In (Opendir filePath opened) tr) /\
    (S_ISDIR (st_mode fileInfo) = true ->
     tr = (Lstat filePath ::
           (if ShouldPrintFileInformation filePath fileInfo args
            then PrintFileInformation filePath fileInfo args else []) ++
           SearchDirectory filePath dir args)%list) /\
    (S_ISDIR (st_mode fileInfo) = true ->
     ShouldPrintFileInformation filePath fileInfo args = false ->
     tr = Lstat filePath :: SearchDirectory filePath dir args) /\
    (S_ISDIR (st_mode fileInfo) = false ->
     forall e, In e tr -> e = Lstat filePath \/ e = Stdout (filePath ++ newline)) /\
    (S_ISLNK (st_mode fileInfo) = true ->
     forall e, In e tr -> e = Lstat filePath \/ e = Stdout (filePath ++ newline)) /\
    (S_ISDIR (st_mode fileInfo) = true ->
     forall ents rd,
       dir = Stream ents rd None ->
       tr = (Lstat filePath ::
             (if ShouldPrintFileInformation filePath fileInfo args
              then PrintFileInformation filePath fileInfo args else []) ++
             Opendir filePath true ::
             fst (read_directory filePath ents rd []) ++
             Closedir filePath ::
             SearchFileList filePath (snd (read_directory filePath ents rd [])) args)%list /\
       snd (read_directory filePath ents rd []) =
         filter (fun node => negb (is_dot (fst node))) (dirents_to_list ents) /\
       (forall d_name child,
          In (d_name, child) (dirents_to_list ents) ->
          is_dot d_name = false ->
          exists pre post,
            tr = (pre ++ SearchFile (CombinePath filePath d_name) child args ++ post)%list /\
            In (Lstat (CombinePath filePath d_name)) tr)).
Proof.
  intros filePath fileInfo dir args tr.
  assert (Hfile : S_ISDIR (st_mode fileInfo) = false ->
     forall e, In e tr -> e = Lstat filePath \/ e = Stdout (filePath ++ newline)).
  { intros Hd e He. subst tr. cbn [SearchFile] in He. rewrite Hd in He.
    rewrite app_nil_r in He. destruct He as [He|He]; [now left|right].
    destruct (ShouldPrintFileInformation filePath fileInfo args).
    - now apply PrintFileInformation_prints in He.
    - destruct He. }
  split; [|split; [|split; [|split; [|split]]]].
  - split.
    + intros Hd. subst tr. cbn [SearchFile]. rewrite Hd.
      destruct (SearchDirectory_opens filePath dir args) as (opened & tl & Heq).
      exists opened. right. apply in_or_app. right. rewrite Heq. now left.
    + intros [opened Hin].
      destruct (S_ISDIR (st_mode fileInfo)) eqn:Hd; [reflexivity|].
      destruct (Hfile eq_refl _ Hin); discriminate.
  - intros Hd. subst tr. cbn [SearchFile]. now rewrite Hd.
  - intros Hd Hs. subst tr. cbn [SearchFile]. now rewrite Hd, Hs.
  - exact Hfile.
  - intros Hl. apply Hfile. now apply S_ISLNK_not_S_ISDIR.
  - intros Hd ents rd ->. subst tr. cbn [SearchFile SearchDirectory]. rewrite Hd.
    split; [|split].
    + now rewrite SearchList_FileList.
    + apply read_directory_snd.
    + intros d_name child Hin Hdot.
      destruct (SearchList_searches_each filePath args ents d_name child Hin Hdot)
        as (pre & post & Heq).
      exists (Lstat filePath ::
              (if ShouldPrintFileInformation filePath fileInfo args
               then PrintFileInformation filePath fileInfo args else []) ++
              Opendir filePath true ::
              fst (read_directory filePath ents rd []) ++
              Closedir filePath :: pre)%list, post.
      assert (Htr :
        (Lstat filePath ::
         (if ShouldPrintFileInformation filePath fileInfo args
          then PrintFileInformation filePath fileInfo args else []) ++
         Opendir filePath true ::
         fst (read_directory filePath ents rd []) ++
         Closedir filePath :: SearchList filePath ents args)%list =
        ((Lstat filePath ::
          (if ShouldPrintFileInformation filePath fileInfo args
           then PrintFileInformation filePath fileInfo args else []) ++
          Opendir filePath true ::
          fst (read_directory filePath ents rd []) ++
          Closedir filePath :: pre) ++
         SearchFile (CombinePath filePath d_name) child args ++ post)%list).
      { rewrite Heq. cbn [app]. f_equal. rewrite <- app_assoc. f_equal.
        cbn [app]. f_equal. rewrite <- app_assoc. reflexivity. }
      split; [exact Htr|]. rewrite Htr.
      apply in_or_app. right. apply in_or_app. left.
      destruct child as [info d]. cbn [SearchFile]. now left.
Qed.

Lemma SearchFile_descends_iff_directory_witness :
  (S_ISDIR (Z.lor S_IFDIR 493) = true /\
   ShouldPrintFileInformation "sub"
     {| st_mode := Z.lor S_IFDIR 493; st_uid := 0 |} files_only = false /\
   In ("f2", regular_file 0) (dirents_to_list (dcons "f2" (regular_file 0) dnil)) /\
   is_dot "f2" = false) /\
  exists pre post,
    SearchFile "sub" (directory 0 (dcons "f2" (regular_file 0) dnil)) files_only =
      (pre ++ SearchFile (CombinePath "sub" "f2") (regular_file 0) files_only ++ post)%list /\
    In (Lstat (CombinePath "sub" "f2"))
       (SearchFile "sub" (directory 0 (dcons "f2" (regular_file 0) dnil)) files_only).
Proof.
  assert (H1 : S_ISDIR (st_mode {| st_mode := Z.lor S_IFDIR 493; st_uid := 0 |}) = true)
    by reflexivity.
  assert (H2 : ShouldPrintFileInformation "sub"
                 {| st_mode := Z.lor S_IFDIR 493; st_uid := 0 |} files_only = false)
    by reflexivity.
  assert (H3 : In ("f2", regular_file 0)
                  (dirents_to_list (dcons "f2" (regular_file 0) dnil)))
    by (left; reflexivity).
  assert (H4 : is_dot "f2" = false) by reflexivity.
  split; [repeat split; assumption|].
  exact (proj2 (proj2 (proj2 (proj2 (proj2 (proj2 (proj2
    (SearchFile_descends_iff_directory "sub"
       {| st_mode := Z.lor S_IFDIR 493; st_uid := 0 |}
       (Stream (dcons "f2" (regular_file 0) dnil) None None) files_only)))))
    H1 (dcons "f2" (regular_file 0) dnil) None eq_refl)) "f2" (regular_file 0) H3 H4).
Defined.

(** ** The search path *)

(** C10.  An argument that the loop meets where it expects an action, and
    that is none of the seven action words, is the search path when it is
    argument 1 and an error anywhere else.  So a command line in which such
    an argument comes after one or more whole actions, or after the search
    path and any whole actions, is rejected; [myfind -print /tmp] is, and
    [myfind /tmp -print] is parsed with [/tmp] as the search path.  Taken as
    the search path means: when the parse succeeds, [searchPath] points to
    that argument, and [main] starts the walk there. *)
Theorem search_path_only_as_first_argument :
  forall ConvertToInteger QueryUserID : string -> option Z,
    (forall i arg rest args,
       is_action arg = false -> i <> 1%nat ->
       ParseCommandLineArgs_loop ConvertToInteger QueryUserID i (arg :: rest) args =
       inl (UnknownArgument i arg)) /\
    (forall exe arg rest args,
       is_action arg = false ->
       ParseCommandLineArgs ConvertToInteger QueryUserID (exe :: arg :: rest) args =
       ParseCommandLineArgs_loop ConvertToInteger QueryUserID 2 rest
         (set_searchPath arg args)) /\
    (forall exe actions arg rest args,
       actions <> [] -> whole_actions actions -> is_action arg = false ->
       exists err,
         ParseCommandLineArgs ConvertToInteger QueryUserID
           (exe :: actions ++ arg :: rest)%list args = inl err) /\
    (forall exe path actions arg rest args,
       is_action path = false -> whole_actions actions -> is_action arg = false ->
       exists err,
         ParseCommandLineArgs ConvertToInteger QueryUserID
           (exe :: path :: actions ++ arg :: rest)%list args = inl err) /\
    ParseCommandLineArgs ConvertToInteger QueryUserID
      ["myfind"; "-print"; "/tmp"] calloc_Args = inl (UnknownArgument 2 "/tmp") /\
    ParseCommandLineArgs ConvertToInteger QueryUserID
      ["myfind"; "/tmp"; "-print"] calloc_Args =
      inr (set_searchPath "/tmp" calloc_Args) /\
    (forall exe arg rest args parsed,
       is_action arg = false ->
       ParseCommandLineArgs ConvertToInteger QueryUserID (exe :: arg :: rest) args =
         inr parsed ->
       searchPath parsed = Some arg) /\
    (forall exe arg rest parsed root,
       is_action arg = false ->
       ParseCommandLineArgs ConvertToInteger QueryUserID (exe :: arg :: rest)
         calloc_Args = inr parsed ->
       main ConvertToInteger QueryUserID (exe :: arg :: rest) root =
         (0, SearchFile arg root parsed)) /\
    ParseCommandLineArgs ConvertToInteger QueryUserID
      ["myfind"; "/tmp"; "-print"] calloc_Args =
      inr {| searchPath := Some "/tmp"; printInExtendedFormat := false;
             filterByFileType := false; fileTypes := FileTypes.None;
             filterByUserID := false; userID := 0;
             filterForNoUser := false;
             filterForNamePattern := false; namePattern := None;
             filterForPathPattern := false; pathPattern := None |}.
Proof.
  intros ConvertToInteger QueryUserID.
  assert (Hkept : forall exe arg rest args parsed,
             is_action arg = false ->
             ParseCommandLineArgs ConvertToInteger QueryUserID (exe :: arg :: rest) args =
               inr parsed ->
             searchPath parsed = Some arg).
  { intros exe arg rest args parsed Harg H.
    unfold ParseCommandLineArgs in H. cbn [tl] in H.
    rewrite loop_not_action in H by exact Harg. cbn [Nat.eqb] in H.
    now rewrite (searchPath_kept _ _ _ _ _ _ (le_n 2) H). }
  split; [|split; [|split; [|split; [|split; [|split; [|split; [|split]]]]]]].
  - intros i arg rest args Harg Hi.
    rewrite loop_not_action by exact Harg.
    destruct (Nat.eqb_spec i 1); [contradiction|reflexivity].
  - intros exe arg rest args Harg. unfold ParseCommandLineArgs. cbn [tl].
    now rewrite loop_not_action by exact Harg.
  - intros exe actions arg rest args Hne Hwa Harg.
    unfold ParseCommandLineArgs. cbn [tl].
    apply loop_whole_actions; [exact Harg|exact Hwa|].
    destruct actions; [contradiction|cbn [List.length]; lia].
  - intros exe path actions arg rest args Hpath Hwa Harg.
    unfold ParseCommandLineArgs. cbn [tl].
    rewrite loop_not_action by exact Hpath. cbn [Nat.eqb].
    apply loop_whole_actions; [exact Harg|exact Hwa|lia].
  - reflexivity.
  - reflexivity.
  - exact Hkept.
  - intros exe arg rest parsed root Harg H. unfold main.
    rewrite H, (Hkept exe arg rest calloc_Args parsed Harg H). reflexivity.
  - reflexivity.
Qed.

Lemma search_path_only_as_first_argument_witness :
  (["-ls"; "-name"; "*.c"] <> [] /\
   whole_actions ["-ls"; "-name"; "*.c"] /\
   is_action "/tmp" = false /\
   ParseCommandLineArgs numeric_user_id no_account
     ["myfind"; "/tmp"; "-type"; "d"] calloc_Args =
     inr (set_fileTypes 4 (set_searchPath "/tmp" calloc_Args))) /\
  (exists err,
     ParseCommandLineArgs numeric_user_id no_account
       ["myfind"; "-ls"; "-name"; "*.c"; "/tmp"; "-print"] calloc_Args = inl err) /\
  searchPath (set_fileTypes 4 (set_searchPath "/tmp" calloc_Args)) = Some "/tmp".
Proof.
  assert (H1 : ["-ls"; "-name"; "*.c"] <> []) by discriminate.
  assert (H2 : whole_actions ["-ls"; "-name"; "*.c"]).
  { apply wa_flag; [tauto|]. apply wa_operand; [tauto|]. apply wa_nil. }
  assert (H3 : is_action "/tmp" = false) by reflexivity.
  assert (H4 : ParseCommandLineArgs numeric_user_id no_account
                 ["myfind"; "/tmp"; "-type"; "d"] calloc_Args =
               inr (set_fileTypes 4 (set_searchPath "/tmp" calloc_Args)))
    by reflexivity.
  split; [repeat split; assumption|]. split.
  - exact (proj1 (proj2 (proj2
      (search_path_only_as_first_argument numeric_user_id no_account)))
      "myfind" ["-ls"; "-name"; "*.c"] "/tmp" ["-print"] calloc_Args H1 H2 H3).
  - exact (proj1 (proj2 (proj2 (proj2 (proj2 (proj2 (proj2
      (search_path_only_as_first_argument numeric_user_id no_account)))))))
      "myfind" "/tmp" ["-type"; "d"] calloc_Args _ H3 H4).
Defined.

(** ** No filter and the extended format *)

(** C9.  The command line [myfind root -ls] sets no filter, and
    [ShouldPrintFileInformation] returns true for every entry.  All four
    nodes of [root/{f1, sub/{f2}}] are inspected, and not one of them is
    emitted: the branch of [PrintFileInformation] for the extended format
    is a TODO that prints nothing. *)
Theorem no_filter_but_nothing_emitted_with_ls :
  exists args,
    ParseCommandLineArgs numeric_user_id no_account
      ["myfind"; "root"; "-ls"] calloc_Args = inr args /\
    no_filter_active args /\
    (forall filePath fileInfo,
       ShouldPrintFileInformation filePath fileInfo args = true) /\
    main numeric_user_id no_account ["myfind"; "root"; "-ls"] sample_tree =
      (0, SearchFile "root" sample_tree args) /\
    filter is_Lstat (SearchFile "root" sample_tree args) =
      [Lstat "root"; Lstat "root/f1"; Lstat "root/sub"; Lstat "root/sub/f2"] /\
    stdout_lines (SearchFile "root" sample_tree args) = [] /\
    (forall filePath fileInfo,
       PrintFileInformation filePath fileInfo args = []).
Proof.
  eexists. split; [reflexivity|]. repeat split.
Qed.

(** ** Diagnostics exactly on failure *)

Lemma read_directory_stderr (directoryPath : string) (rd : option Z) :
  forall (ents : dirents) (head : FileList),
    filter is_Stderr (fst (read_directory directoryPath ents rd head)) =
    match rd with
    | Some e => [Stderr (ReadingDirectoryFailed directoryPath e)]
    | None => []
    end.
Proof.
  induction ents as [|d_name child rest IH]; intros head.
  - cbn [read_directory fst]. destruct rd; reflexivity.
  - cbn [read_directory].
    specialize (IH (if is_dot d_name then head else AddListNode head (d_name, child))).
    destruct (read_directory directoryPath rest rd
                (if is_dot d_name then head else AddListNode head (d_name, child)))
      as [tr head'].
    cbn [fst] in *. cbn [filter is_Stderr]. exact IH.
Qed.

Lemma print_no_stderr (filePath : string) (fileInfo : stat) (args : Args) :
  filter is_Stderr
    (if ShouldPrintFileInformation filePath fileInfo args
     then PrintFileInformation filePath fileInfo args else []) = [].
Proof.
  unfold PrintFileInformation.
  destruct (ShouldPrintFileInformation filePath fileInfo args),
    (printInExtendedFormat args); reflexivity.
Qed.

Lemma app_nil_iff {A : Type} (a b : list A) :
  (a ++ b)%list = [] <-> a = [] /\ b = [].
Proof.
  split; [apply app_eq_nil|intros [-> ->]; reflexivity].
Qed.

Lemma SearchFile_healthy (args : Args) :
  (forall n filePath,
     filter is_Stderr (SearchFile filePath n args) = [] <-> healthy n = true) /\
  (forall dir directoryPath,
     filter is_Stderr (SearchDirectory directoryPath dir args) = [] <->
     healthy_dir dir = true) /\
  (forall ents directoryPath,
     filter is_Stderr (SearchList directoryPath ents args) = [] <->
     healthy_ents ents = true).
Proof.
  apply fs_mutind.
  - intros info dir IH filePath. cbn [healthy SearchFile].
    destruct info as [err|fileInfo].
    + cbn [filter is_Stderr]. split; intros H; discriminate H.
    + cbn [filter is_Stderr]. rewrite filter_app, print_no_stderr. cbn [app].
      destruct (S_ISDIR (st_mode fileInfo)); [apply IH|].
      split; reflexivity.
  - intros err directoryPath. cbn [SearchDirectory healthy_dir filter is_Stderr].
    split; intros H; discriminate H.
  - intros ents IH rd cl directoryPath. cbn [SearchDirectory healthy_dir].
    cbn [filter is_Stderr]. rewrite filter_app, read_directory_stderr.
    cbn [filter is_Stderr].
    destruct rd as [e|].
    + cbn [app]. destruct cl; split; intros H; discriminate H.
    + cbn [app]. destruct cl as [e|].
      * cbn [filter is_Stderr]. split; intros H; discriminate H.
      * apply IH.
  - intros directoryPath. split; reflexivity.
  - intros d_name child IHc rest IHr directoryPath. cbn [SearchList healthy_ents].
    destruct (is_dot d_name); cbn [orb andb]; [apply IHr|].
    rewrite filter_app, app_nil_iff, IHc, IHr, andb_true_iff. reflexivity.
Qed.

(** The walk writes nothing to [stderr] exactly when every system call it
    makes succeeds: [lstat] on each node it inspects, and [opendir], every
    [readdir] and [closedir] on each node that is a directory.  Files that
    are never opened and the entries [.] and [..] do not matter. *)
Theorem no_diagnostic_without_failure :
  forall filePath n args,
    filter is_Stderr (SearchFile filePath n args) = [] <-> healthy n = true.
Proof.
  intros filePath n args. apply (proj1 (SearchFile_healthy args)).
Qed.

Lemma no_diagnostic_without_failure_witness :
  healthy sample_tree = true /\
  filter is_Stderr (SearchFile "root" sample_tree calloc_Args) = [].
Proof.
  assert (H : healthy sample_tree = true) by reflexivity.
  split; [exact H|].
  exact (proj2 (no_diagnostic_without_failure "root" sample_tree calloc_Args) H).
Defined.

(** ** The limit of open streams *)

Lemma SearchFile_fd_free (limit held : Z) (args : Args) :
  held < limit ->
  (forall n filePath,
     SearchFile_fd limit held filePath n args = SearchFile filePath n args) /\
  (forall dir directoryPath,
     SearchDirectory_fd limit held directoryPath dir args =
     SearchDirectory directoryPath dir args) /\
  (forall ents directoryPath,
     SearchList_fd limit held directoryPath ents args =
     SearchList directoryPath ents args).
Proof.
  intros Hfree.
  assert (Hle : (limit <=? held) = false) by (apply Z.leb_gt; exact Hfree).
  apply fs_mutind.
  - intros info dir IH filePath. cbn [SearchFile_fd SearchFile].
    destruct info; [reflexivity|]. now rewrite IH.
  - intros e directoryPath. cbn [SearchDirectory_fd SearchDirectory].
    now rewrite Hle.
  - intros ents IH rd cl directoryPath. cbn [SearchDirectory_fd SearchDirectory].
    rewrite Hle. now rewrite IH.
  - reflexivity.
  - intros d_name child IHc rest IHr directoryPath.
    cbn [SearchList_fd SearchList]. now rewrite IHc, IHr.
Qed.



Lemma do_file_fd_observed (limit : Z) :
  (forall n held file_name,
     held + height n <= limit ->
     observed (do_file_fd limit held file_name n) = observed (do_file file_name n)) /\
  (forall dir held dir_name,
     held + height_dir dir <= limit ->
     observed (do_dir_fd limit held dir_name dir) = observed (do_dir dir_name dir)) /\
  (forall ents held dir_name rd,
     held + height_ents ents <= limit ->
     observed (do_dir_loop_fd limit held dir_name ents rd) =
     observed (do_dir_loop dir_name ents rd)).
Proof.
  destruct height_nonneg as (Hn & Hd & He).
  apply fs_mutind.
  - intros info dir IH held file_name H. cbn [height] in H.
    cbn [do_file_fd do_file]. destruct info as [err|fileInfo]; [reflexivity|].
    rewrite !observed_keep by reflexivity. do 2 f_equal.
    destruct (S_ISDIR (st_mode fileInfo)); [now apply IH|reflexivity].
  - intros e held dir_name _. cbn [do_dir_fd do_dir].
    destruct (limit <=? held); reflexivity.
  - intros ents IH rd cl held dir_name H. cbn [height_dir] in H.
    cbn [do_dir_fd do_dir].
    replace (limit <=? held) with false
      by (symmetry; apply Z.leb_gt; specialize (He ents); lia).
    rewrite !observed_skip by reflexivity. rewrite !observed_app.
    now rewrite IH by lia.
  - reflexivity.
  - intros d_name child IHc rest IHr held dir_name rd H. cbn [height_ents] in H.
    cbn [do_dir_loop_fd do_dir_loop].
    rewrite !observed_skip by reflexivity. rewrite !observed_app.
    rewrite IHr by lia.
    destruct (is_dot d_name); [reflexivity|]. now rewrite IHc by lia.
Qed.


